(** * scripts/update_readme.py: the README section generator

    A shallow embedding of the three stages of the script
    (collect_examples, generate_section, replace_section) and of main,
    with the pieces of the Python library they call: str methods, sorted,
    posixpath, os.walk and the fragment of re that the one pattern of the
    script needs.

    Text is modelled as Python has it: a str is a sequence of Unicode code
    points, here a list of N.  Exceptions are values of [result].  The
    library is the one of CPython 3.12 on a POSIX host: os.path is
    posixpath, and the replacement template of re.sub is parsed as
    re._parser.parse_template does. *)

From Stdlib Require Import NArith List Ascii String Lia.
From stdpp Require Import gmap list sorting.

Local Open Scope N_scope.

(** ** Text *)

Abbreviation char := N (only parsing).
Abbreviation str := (list N) (only parsing).

(** An ASCII literal of the source as a str. *)
Definition lit (s : string) : str := map N_of_ascii (list_ascii_of_string s).

Definition NL : N := 10.         (* the character written \n in a Python literal *)
Definition BACKSLASH : N := 92.
Definition SLASH : N := 47.

Definition BASE_DIR : str := lit "src/main/java".
Definition README : str := lit "README.md".

(** The two headings of the script: [## ], an emoji (U+1F4D1 bookmark tabs,
    U+1F6E0 hammer and wrench), and the title. *)
Definition TOPICS_HEADING : str := lit "## " ++ [0x1F4D1] ++ lit " Topics & Examples".
Definition REQUIREMENTS_HEADING : str := lit "## " ++ [0x1F6E0] ++ lit " Requirements".

(** ** Exceptions *)

Inductive re_error_msg :=
| bad_escape_end_of_pattern
| bad_escape (c : char)
| invalid_group_reference (index : N)
| missing_lt
| missing_group_name
| unterminated_name
| octal_escape_out_of_range.

Inductive exn :=
| re_error (msg : re_error_msg)
  (* a group name that is no number: re.error (bad character in group name)
     or IndexError (unknown group name), the pattern has no named group *)
| bad_or_unknown_group_name
| FileNotFoundError.

Inductive result (A : Type) :=
| Ok (a : A)
| Raise (e : exn).
Arguments Ok {A} a.
Arguments Raise {A} e.

#[global] Instance result_ret : MRet result := fun A a => Ok a.
#[global] Instance result_bind : MBind result := fun A B k r =>
  match r with
  | Ok a => k a
  | Raise e => Raise e
  end.

(** ** The fragment of re used by the script

    The pattern of replace_section is a literal, a lazy [.*?] and a literal.
    The matcher is the backtracking one: a literal must be next in the text,
    and [.*?] first tries the rest of the pattern where it stands and takes
    one more character only when that fails. *)

Inductive regex_item :=
| Lit (s : str)
| LazyDotStar.

(** [starts_with p s]: the rest of [s] after the prefix [p], if [s] starts with it. *)
Fixpoint starts_with (p s : str) : option str :=
  match p, s with
  | [], _ => Some s
  | a :: p', b :: s' => if a =? b then starts_with p' s' else None
  | _ :: _, [] => None
  end.

(** Without re.S the dot matches everything but a newline. *)
Definition dot_matches (dotall : bool) (c : char) : bool :=
  dotall || negb (c =? NL).

(** [re_match dotall p s]: the pattern matched at the start of [s], as
    (matched text, rest of s). *)
Fixpoint re_match (dotall : bool) (p : list regex_item) : str -> option (str * str) :=
  match p with
  | [] => fun s => Some ([], s)
  | Lit l :: p' => fun s =>
      match starts_with l s with
      | Some s' =>
          match re_match dotall p' s' with
          | Some (m, r) => Some (l ++ m, r)
          | None => None
          end
      | None => None
      end
  | LazyDotStar :: p' =>
      fix lazy (s : str) : option (str * str) :=
        match re_match dotall p' s with
        | Some mr => Some mr
        | None =>
            match s with
            | [] => None
            | c :: s' =>
                if dot_matches dotall c then
                  match lazy s' with
                  | Some (m, r) => Some (c :: m, r)
                  | None => None
                  end
                else None
            end
        end
  end.

(** [re_search dotall p s]: the leftmost match, as (text before, match, text after). *)
Fixpoint re_search (dotall : bool) (p : list regex_item) (s : str) : option (str * str * str) :=
  match re_match dotall p s with
  | Some (m, r) => Some ([], m, r)
  | None =>
      match s with
      | [] => None
      | c :: s' =>
          match re_search dotall p s' with
          | Some (b, m, r) => Some (c :: b, m, r)
          | None => None
          end
      end
  end.

(** *** Replacement templates (re's parse_template)

    A replacement string with a backslash is a template.  The tokenizer
    reads a backslash and the character after it as one token. *)

Inductive template_item :=
| TLit (s : str)
| TGroup (index : N).

Definition is_digit (c : char) : bool := (48 <=? c) && (c <=? 57).
Definition is_octdigit (c : char) : bool := (48 <=? c) && (c <=? 55).
Definition is_ascii_letter (c : char) : bool :=
  ((65 <=? c) && (c <=? 90)) || ((97 <=? c) && (c <=? 122)).
Definition digit_value (c : char) : N := c - 48.

(** int(name) for a name of ASCII digits, and int(digits, 8). *)
Definition int_of (base : N) (digits : str) : N :=
  fold_left (fun acc c => base * acc + digit_value c) digits 0.

(** ESCAPES of the parser, restricted to what a template can hold. *)
Definition escape_char (c : char) : option char :=
  if c =? 97 then Some 7            (* \a *)
  else if c =? 98 then Some 8       (* \b *)
  else if c =? 102 then Some 12     (* \f *)
  else if c =? 110 then Some 10     (* \n *)
  else if c =? 114 then Some 13     (* \r *)
  else if c =? 116 then Some 9      (* \t *)
  else if c =? 118 then Some 11     (* \v *)
  else if c =? 92 then Some 92      (* \\ *)
  else None.

(** addgroup: a reference to a group the pattern does not have is refused. *)
Definition addgroup (groups index : N) (rest : result (list template_item))
  : result (list template_item) :=
  if groups <? index then Raise (re_error (invalid_group_reference index))
  else tl ← rest; Ok (TGroup index :: tl).

Definition addliteral (s : str) (rest : result (list template_item))
  : result (list template_item) :=
  tl ← rest; Ok (TLit s :: tl).

(** The tokenizer is one token ahead: fetching a token reads the next one,
    and a lone backslash at the very end is refused there. *)
Definition lookahead {A} (rest : str) (k : result A) : result A :=
  match rest with
  | [c] => if c =? BACKSLASH then Raise (re_error bad_escape_end_of_pattern) else k
  | _ => k
  end.

(** [parse_template groups s] follows the loop of parse_template, one token
    at a time; [group_name] is getuntil(">") with what follows it: a name of
    ASCII digits is a group number, any other name is refused (the pattern
    has no named group). *)
Fixpoint parse_template (groups : N) (s : str) {struct s} : result (list template_item) :=
  match s with
  | [] => Ok []
  | this :: s1 =>
      if negb (this =? BACKSLASH) then
        lookahead s1 (addliteral [this] (parse_template groups s1))
      else
        match s1 with
        | [] => Raise (re_error bad_escape_end_of_pattern)
        | c :: s2 =>
            lookahead s2
            (if c =? 103 (* g *) then
              match s2 with
              | lt :: s3 =>
                  if lt =? 60 (* < *) then lookahead s3 (group_name groups [] s3)
                  else Raise (re_error missing_lt)
              | [] => Raise (re_error missing_lt)
              end
            else if c =? 48 (* 0 *) then
              match s2 with
              | d1 :: s3 =>
                  if is_octdigit d1 then
                    lookahead s3
                    match s3 with
                    | d2 :: s4 =>
                        if is_octdigit d2 then
                          lookahead s4
                          (addliteral [N.land (int_of 8 [c; d1; d2]) 255]
                                      (parse_template groups s4))
                        else
                          addliteral [N.land (int_of 8 [c; d1]) 255]
                                     (parse_template groups s3)
                    | [] => Ok [TLit [N.land (int_of 8 [c; d1]) 255]]
                    end
                  else addliteral [0] (parse_template groups s2)
              | [] => Ok [TLit [0]]
              end
            else if is_digit c then
              match s2 with
              | d1 :: s3 =>
                  if is_digit d1 then
                    lookahead s3
                    match s3 with
                    | d2 :: s4 =>
                        if is_octdigit c && is_octdigit d1 && is_octdigit d2 then
                          lookahead s4
                          (if 255 <? int_of 8 [c; d1; d2]
                           then Raise (re_error octal_escape_out_of_range)
                           else addliteral [int_of 8 [c; d1; d2]] (parse_template groups s4))
                        else addgroup groups (int_of 10 [c; d1]) (parse_template groups s3)
                    | [] => addgroup groups (int_of 10 [c; d1]) (Ok [])
                    end
                  else addgroup groups (int_of 10 [c]) (parse_template groups s2)
              | [] => addgroup groups (int_of 10 [c]) (Ok [])
              end
            else
              match escape_char c with
              | Some e => addliteral [e] (parse_template groups s2)
              | None =>
                  if is_ascii_letter c then Raise (re_error (bad_escape c))
                  else addliteral [this; c] (parse_template groups s2)
              end)
        end
  end
with group_name (groups : N) (name : str) (s : str) {struct s} : result (list template_item) :=
  match s with
  | [] =>
      match name with
      | [] => Raise (re_error missing_group_name)
      | _ => Raise (re_error unterminated_name)
      end
  | c :: s1 =>
      if c =? 62 (* > *) then
        lookahead s1
        match name with
        | [] => Raise (re_error missing_group_name)
        | _ =>
            if forallb is_digit name
            then addgroup groups (int_of 10 name) (parse_template groups s1)
            else Raise bad_or_unknown_group_name
        end
      else if c =? BACKSLASH then
        match s1 with
        | [] => Raise (re_error bad_escape_end_of_pattern)
        | c' :: s2 => lookahead s2 (group_name groups (name ++ [c; c']) s2)
        end
      else lookahead s1 (group_name groups (name ++ [c]) s1)
  end.

(** expand_template: group 0 is the whole match. *)
Definition expand_template (tpl : list template_item) (m : str) : str :=
  flat_map (fun it => match it with
                      | TLit s => s
                      | TGroup index => if index =? 0 then m else []
                      end) tpl.

(** The number of capturing groups of a pattern of this fragment. *)
Definition groups_of (p : list regex_item) : N := 0.

(** The loop of re.sub with count=0: every match found from the end of the
    one before is replaced.  A match of the script's pattern is never
    empty, so the text left shrinks at each turn and [length s] turns are
    enough. *)
Fixpoint sub_loop (fuel : nat) (dotall : bool) (p : list regex_item)
  (repl : str -> str) (s : str) : str :=
  match fuel with
  | O => s
  | S fuel' =>
      match re_search dotall p s with
      | None => s
      | Some (b, m, r) => b ++ repl m ++ sub_loop fuel' dotall p repl r
      end
  end.

Definition sub_all (dotall : bool) (p : list regex_item) (repl : str -> str) (s : str) : str :=
  sub_loop (length s) dotall p repl s.

(** re.sub(pattern, repl, string, flags): the template is compiled first,
    match or no match. *)
Definition re_sub (p : list regex_item) (repl : str) (s : str) (dotall : bool) : result str :=
  tpl ← parse_template (groups_of p) repl;
  Ok (sub_all dotall p (expand_template tpl) s).

(** ** replace_section *)

Definition pattern : list regex_item :=
  [Lit TOPICS_HEADING; LazyDotStar; Lit REQUIREMENTS_HEADING].

Definition replace_section (content new_section : str) : result str :=
  re_sub pattern (new_section ++ [NL] ++ REQUIREMENTS_HEADING) content true.

(** ** str methods and built-ins used by generate_section *)

(** Case mapping of the ASCII range.  Code points above 127 are left as
    they are: right for the characters without case (the emoji of the
    headings among them), while Python also maps the cased letters outside
    ASCII; what is stated about [capitalize] below is stated for ASCII keys. *)
Definition ascii_upper (c : char) : char :=
  if (97 <=? c) && (c <=? 122) then c - 32 else c.
Definition ascii_lower (c : char) : char :=
  if (65 <=? c) && (c <=? 90) then c + 32 else c.

(** str.capitalize(): the first character upper-cased, the rest lower-cased. *)
Definition capitalize (s : str) : str :=
  match s with
  | [] => []
  | c :: rest => ascii_upper c :: map ascii_lower rest
  end.

(** s.endswith(suffix) *)
Definition endswith (s suffix : str) : bool :=
  bool_decide (drop (length s - length suffix) s = suffix).

(** s.startswith(prefix) *)
Definition startswith (s prefix : str) : bool :=
  bool_decide (take (length prefix) s = prefix).

(** s[:-n] for n > 0 *)
Definition drop_last (n : nat) (s : str) : str := take (length s - n) s.

(** s.replace(old, new) for one-character old and new *)
Definition replace_char (old new : char) (s : str) : str :=
  map (fun c => if c =? old then new else c) s.

(** sep.join(parts) *)
Fixpoint str_join (sep : str) (parts : list str) : str :=
  match parts with
  | [] => []
  | [x] => x
  | x :: rest => x ++ sep ++ str_join sep rest
  end.

(** The order of sequences (str, list, tuple): the first place where the
    two differ decides, and a proper prefix is smaller. *)
Fixpoint seq_ltb {A} (eqb ltb : A -> A -> bool) (a b : list A) : bool :=
  match a, b with
  | _, [] => false
  | [], _ :: _ => true
  | x :: a', y :: b' => if eqb x y then seq_ltb eqb ltb a' b' else ltb x y
  end.

Definition str_ltb : str -> str -> bool := seq_ltb N.eqb N.ltb.
Definition str_eqb (a b : str) : bool := bool_decide (a = b).
Definition files_ltb : list str -> list str -> bool := seq_ltb str_eqb str_ltb.

(** An item of dict.items() is a tuple (key, value). *)
Definition item_ltb (a b : str * list str) : bool :=
  if str_eqb a.1 b.1 then files_ltb a.2 b.2 else str_ltb a.1 b.1.

(** sorted(xs) compares with < only: x stays before y unless y < x. *)
Definition not_after {A} (ltb : A -> A -> bool) (x y : A) : Prop := ltb y x = false.

#[global] Instance not_after_dec {A} (ltb : A -> A -> bool) (x y : A) :
  Decision (not_after ltb x y) := bool_eq_dec (ltb y x) false.

Definition sorted {A} (ltb : A -> A -> bool) (xs : list A) : list A :=
  merge_sort (not_after ltb) xs.

(** ** posixpath *)

(** One step of os.path.join: an absolute component starts afresh. *)
Definition join_step (path b : str) : str :=
  if startswith b [SLASH] then b
  else if bool_decide (path = []) || endswith path [SLASH] then path ++ b
  else path ++ [SLASH] ++ b.

Definition os_path_join (a : str) (p : list str) : str := fold_left join_step p a.

(** ** generate_section *)

(** The lines appended for one example file. *)
Definition example_line (topic f : str) : str :=
  let path := replace_char BACKSLASH SLASH (os_path_join BASE_DIR [topic; f]) in
  let name := drop_last 5 f in  (* remove .java *)
  lit "  - [" ++ name ++ lit "](" ++ path ++ lit ")".

(** The lines appended for one topic of the loop. *)
Definition topic_lines (item : str * list str) : list str :=
  let '(topic, files) := item in
  [lit "- **" ++ capitalize topic ++ lit "**"]
  ++ map (example_line topic) (sorted str_ltb files)
  ++ [[]].

Definition section_lines (topics : gmap (list N) (list (list N))) : list str :=
  [TOPICS_HEADING ++ [NL]]
  ++ flat_map topic_lines (sorted item_ltb (map_to_list topics)).

Definition generate_section (topics : gmap (list N) (list (list N))) : str :=
  str_join [NL] (section_lines topics).

(** ** The directory tree and os.walk

    A directory holds the names of its files and its subdirectories.
    os.walk yields a directory before its subdirectories; what it does not
    enter (a symbolic link to a directory, an unreadable directory) has no
    place in [subdirs], the script ignores the names of directories. *)

#[warnings="-register-all"]
Inductive dir :=
| Dir (files : list (list N)) (subdirs : list (list N * dir)).

Fixpoint os_walk (top : str) (d : dir) : list (str * list str * list str) :=
  match d with
  | Dir files subdirs =>
      (top, map fst subdirs, files)
      :: flat_map (fun entry => let '(name, sub) := entry in
                                os_walk (os_path_join top [name]) sub) subdirs
  end.

(** os.walk(BASE_DIR): a scan root that does not exist yields nothing, the
    error of scandir is dropped (onerror is None). *)
Definition walk_base (scan_root : option dir) : list (str * list str * list str) :=
  match scan_root with
  | Some d => os_walk BASE_DIR d
  | None => []
  end.

(** ** posixpath.relpath *)

(** s.split(sep) for a one-character sep *)
Fixpoint split_on (sep : char) (s : str) : list str :=
  match s with
  | [] => [[]]
  | c :: s' =>
      if c =? sep then [] :: split_on sep s'
      else
        match split_on sep s' with
        | part :: parts => (c :: part) :: parts
        | [] => [[c]]
        end
  end.

Definition isabs (s : str) : bool := startswith s [SLASH].

(** The loop body of normpath. *)
Definition norm_step (initial_slashes : nat) (new_comps : list str) (comp : str) : list str :=
  if bool_decide (comp = []) || bool_decide (comp = lit ".") then new_comps
  else if negb (bool_decide (comp = lit ".."))
          || (bool_decide (initial_slashes = 0%nat) && bool_decide (new_comps = []))
          || bool_decide (last new_comps = Some (lit ".."))
  then new_comps ++ [comp]
  else removelast new_comps.

(** POSIX allows one or two initial slashes, but treats three or more as a
    single slash. *)
Definition initial_slashes (path : str) : nat :=
  if startswith path [SLASH] then
    if startswith path [SLASH; SLASH] && negb (startswith path [SLASH; SLASH; SLASH])
    then 2%nat else 1%nat
  else 0%nat.

Definition normpath (path : str) : str :=
  if bool_decide (path = []) then lit "."
  else
    let comps := split_on SLASH path in
    let new_comps := fold_left (norm_step (initial_slashes path)) comps [] in
    let path := repeat SLASH (initial_slashes path) ++ str_join [SLASH] new_comps in
    if bool_decide (path = []) then lit "." else path.

(** abspath joins a relative path to the working directory. *)
Definition abspath (cwd path : str) : str :=
  normpath (if isabs path then path else os_path_join cwd [path]).

(** os.path.commonprefix of two lists: their longest common prefix. *)
Fixpoint commonprefix (a b : list (list N)) : list str :=
  match a, b with
  | x :: a', y :: b' => if bool_decide (x = y) then x :: commonprefix a' b' else []
  | _, _ => []
  end.

Definition nonempty (s : str) : bool := negb (bool_decide (s = [])).

(** relpath(path, start).  It raises ValueError for an empty path only, and
    the script passes the roots of os.walk, which start with BASE_DIR. *)
Definition os_path_relpath (cwd path start : str) : str :=
  let start_list := List.filter nonempty (split_on SLASH (abspath cwd start)) in
  let path_list := List.filter nonempty (split_on SLASH (abspath cwd path)) in
  let i := length (commonprefix start_list path_list) in
  let rel_list := repeat (lit "..") (length start_list - i) ++ drop i path_list in
  match rel_list with
  | [] => lit "."
  | a :: p => os_path_join a p
  end.

(** ** collect_examples *)

(** topics.setdefault(topic, []).append(f) *)
Definition setdefault_append (topic f : str) (topics : gmap (list N) (list (list N)))
  : gmap (list N) (list (list N)) :=
  <[topic := default [] (topics !! topic) ++ [f]]> topics.

Definition collect_examples (cwd : str) (scan_root : option dir)
  : gmap (list N) (list (list N)) :=
  fold_left
    (fun topics entry =>
       let '(root, _, files) := entry in
       fold_left
         (fun topics f =>
            if endswith f (lit ".java")
            then setdefault_append (os_path_relpath cwd root BASE_DIR) f topics
            else topics)
         files topics)
    (walk_base scan_root) ∅.

(** ** main

    What the script reads: the working directory, the tree under BASE_DIR
    (if there is one) and the text of README.md (if there is one), as
    open(README, encoding="utf-8").read() returns it.  main writes the text
    back; the tree is not touched.

    README.md is taken to be absent or a file of UTF-8 text that can be
    read and written; a directory of that name, a file without permission
    or bytes that are no UTF-8 are outside the model.  The text handed to
    f.write is taken to be written: the UTF-8 encoder refuses a text with a
    lone surrogate, which only a file name that is not UTF-8 brings in, so
    what is stated below about runs of main on a directory tree is stated
    for text without one ([encodable]). *)

Record world := World {
  cwd : list N;
  scan_root : option dir;
  readme : option (list N);
}.

Definition read_readme (w : world) : result str :=
  match readme w with
  | Some content => Ok content
  | None => Raise FileNotFoundError
  end.

Definition main (w : world) : result world :=
  let topics := collect_examples (cwd w) (scan_root w) in
  let new_section := generate_section topics in
  content ← read_readme w;
  updated ← replace_section content new_section;
  Ok (World (cwd w) (scan_root w) (Some updated)).

(** * Specification vocabulary *)

Local Close Scope N_scope.

(** ** Documents and regions *)

(** [first_occurrence p s a b]: [s] is [a ++ p ++ b], and [p] stands nowhere
    further left in [s]. *)
Definition first_occurrence (p s a b : list N) : Prop :=
  s = a ++ p ++ b /\ forall a' b', s = a' ++ p ++ b' -> length a <= length a'.

Definition occurs (p s : list N) : Prop := exists a b, s = a ++ p ++ b.

(** The marker pair, in that order. *)
Definition has_markers (s : list N) : Prop :=
  exists a mid b, s = a ++ TOPICS_HEADING ++ mid ++ REQUIREMENTS_HEADING ++ b.

(** The first region of a document: from the first start heading to the
    first end heading after it, with the text before and after. *)
Definition first_region (s before mid after : list N) : Prop :=
  first_occurrence TOPICS_HEADING s before (mid ++ REQUIREMENTS_HEADING ++ after) /\
  first_occurrence REQUIREMENTS_HEADING (mid ++ REQUIREMENTS_HEADING ++ after) mid after.

(** The marker region of a document: from the first start heading to the
    first end heading after it, both included. *)
Definition marker_region (s : list N) : option (list N) :=
  match re_search true pattern s with
  | Some (_, m, _) => Some m
  | None => None
  end.

(** Every region replaced, from left to right, each search starting where
    the region before ended; [repl] gives the text that takes the place of a
    region. *)
Inductive all_regions_replaced (repl : list N -> list N) : list N -> list N -> Prop :=
| no_region s :
    ~ has_markers s -> all_regions_replaced repl s s
| next_region s before mid after out :
    first_region s before mid after ->
    all_regions_replaced repl after out ->
    all_regions_replaced repl s
      (before ++ repl (TOPICS_HEADING ++ mid ++ REQUIREMENTS_HEADING) ++ out).

(** Only the first region replaced by [new], the rest of the document kept. *)
Definition first_region_replaced (new s out : list N) : Prop :=
  exists before mid after,
    first_region s before mid after /\ out = before ++ new ++ after.

(** The text before the first start heading and the text after the matched
    end heading kept, whatever stands between them in the output. *)
Definition outside_first_region_kept (s out : list N) : Prop :=
  exists before mid after region,
    first_region s before mid after /\ out = before ++ region ++ after.

(** What a region becomes when the block is the start heading and [y]: the
    block, a newline and the end heading; and the splice of that block. *)
Definition spliced_region (y : list N) : list N :=
  (TOPICS_HEADING ++ y) ++ [NL] ++ REQUIREMENTS_HEADING.

Definition splice_block (y : list N) : list N -> list N :=
  sub_all true pattern (fun _ => spliced_region y).

(** ** The rendered section *)

(** The strict order of str that sorted uses. *)
Definition str_lt (a b : list N) : Prop := str_ltb a b = true.

(** The topic blocks in the order they are rendered, each with its example
    files in the order they are rendered. *)
Definition rendered_topics (topics : gmap (list N) (list (list N)))
  : list (list N * list (list N)) :=
  map (fun item => (item.1, sorted str_ltb item.2)) (sorted item_ltb (map_to_list topics)).

(** The lines of one rendered topic block. *)
Definition block_lines (block : list N * list (list N)) : list (list N) :=
  [lit "- **" ++ capitalize block.1 ++ lit "**"]
  ++ map (example_line block.1) block.2
  ++ [[]].

(** The display name as the spec words it: the first character upper-cased,
    the rest of the key left as it is. *)
Definition first_upper_rest_kept (k : list N) : list N :=
  match k with
  | [] => []
  | c :: rest => ascii_upper c :: rest
  end.

Definition is_ascii (c : N) : Prop := (c < 128)%N.

(** ** Directory trees *)

(** A name that scandir can return for an entry of a directory. *)
Definition valid_name (n : list N) : Prop :=
  n <> [] /\ (SLASH ∉ n) /\ n <> lit "." /\ n <> lit "..".

#[global] Instance valid_name_dec (n : list N) : Decision (valid_name n).
Proof. unfold valid_name. apply _. Defined.

(** A directory tree as a file system holds it: the entries of one directory
    have distinct names. *)
#[warnings="-register-all"]
Inductive wf_dir : dir -> Prop :=
| wf_Dir files subdirs :
    NoDup files ->
    NoDup (map fst subdirs) ->
    Forall valid_name (map fst subdirs) ->
    Forall (fun entry => wf_dir entry.2) subdirs ->
    wf_dir (Dir files subdirs).

(** Induction on a directory tree. *)
Fixpoint dir_rect' (P : dir -> Prop)
  (H : forall files subdirs, Forall (fun entry => P entry.2) subdirs -> P (Dir files subdirs))
  (d : dir) : P d :=
  match d with
  | Dir files subdirs =>
      H files subdirs
        ((fix go (l : list (list N * dir)) : Forall (fun entry => P entry.2) l :=
            match l with
            | [] => @List.Forall_nil _ (fun entry => P entry.2)
            | entry :: l' =>
                @List.Forall_cons _ (fun entry => P entry.2) entry l'
                  (let '(_, sub) as e := entry return P e.2 in dir_rect' P H sub) (go l')
            end) subdirs)
  end.

(** The directories of a tree, each with the names that lead to it from the
    root of the tree and with its files. *)
Fixpoint dirs_of (path : list (list N)) (d : dir) : list (list (list N) * list (list N)) :=
  match d with
  | Dir files subdirs =>
      (path, files)
      :: flat_map (fun entry => let '(name, sub) := entry in
                                dirs_of (path ++ [name]) sub) subdirs
  end.

(** The relative path of a directory from the scan root, by the names that
    lead to it. *)
Definition rel_path (p : list (list N)) : list N :=
  match p with
  | [] => lit "."
  | _ => str_join [SLASH] p
  end.

(** The directories of a tree under their keys. *)
Definition keyed_dirs (d : dir) : list (list N * list (list N)) :=
  map (fun item => (rel_path item.1, item.2)) (dirs_of [] d).

(** The recognized files of a list of file names. *)
Definition java_files (files : list (list N)) : list (list N) :=
  List.filter (fun f => endswith f (lit ".java")) files.

(** The text that the names add to a path. *)
Definition below (p : list (list N)) : list N := flat_map (fun n => SLASH :: n) p.

(** A component that normpath keeps: not empty and without a slash. *)
Definition proper_component (c : list N) : Prop := c <> [] /\ (SLASH ∉ c).

(** What a run of appends leaves under a key that held [o]. *)
Definition add_files (l : list (list N)) (o : option (list (list N)))
  : option (list (list N)) :=
  match l with
  | [] => o
  | _ => Some (default [] o ++ l)
  end.

(** The body of the loop of collect_examples over the files of one directory. *)
Definition collect_files (topic : list N) (files : list (list N))
  (topics : gmap (list N) (list (list N))) : gmap (list N) (list (list N)) :=
  fold_left
    (fun topics f =>
       if endswith f (lit ".java") then setdefault_append topic f topics else topics)
    files topics.

(** The block main renders in a world. *)
Definition rendered_block (w : world) : list N :=
  generate_section (collect_examples (cwd w) (scan_root w)).

(** ** Inputs used in examples *)

(** A directory name and a file name used in examples. *)
Definition one_file (topic f : list N) : gmap (list N) (list (list N)) :=
  {[ topic := [f] ]}.

(** A document with two regions. *)
Definition two_regions : list N :=
  lit "A" ++ TOPICS_HEADING ++ lit "old" ++ REQUIREMENTS_HEADING
  ++ lit "B" ++ TOPICS_HEADING ++ lit "older" ++ REQUIREMENTS_HEADING ++ lit "C".


(** A tree used in examples: two topics and a file at the scan root. *)
Definition example_tree : dir :=
  Dir [lit "Main.java"; lit "notes.txt"]
      [(lit "algorithms", Dir [lit "Sort.java"; lit "Search.java"] []);
       (lit "strings", Dir [lit "Reverse.java"] [])].


(** The mapping of the example scenario. *)
Definition example_topics : gmap (list N) (list (list N)) :=
  <[lit "strings" := [lit "Reverse.java"]]>
    (<[lit "algorithms" := [lit "Sort.java"; lit "Search.java"]]> ∅).

(** The block rendered for it, line by line. *)
Definition example_block : list N :=
  TOPICS_HEADING ++ [NL] ++ [NL]
  ++ lit "- **Algorithms**" ++ [NL]
  ++ lit "  - [Search](src/main/java/algorithms/Search.java)" ++ [NL]
  ++ lit "  - [Sort](src/main/java/algorithms/Sort.java)" ++ [NL]
  ++ [NL]
  ++ lit "- **Strings**" ++ [NL]
  ++ lit "  - [Reverse](src/main/java/strings/Reverse.java)" ++ [NL].

(** ** Counting *)

(** The number of file names listed in a mapping, over all its keys. *)
Definition listed_count (topics : gmap (list N) (list (list N))) : nat :=
  sum_list_with (fun item => length item.2) (map_to_list topics).

(** The number of .java files in what os.walk yields. *)
Definition walked_java_count (entries : list (list N * list (list N) * list (list N))) : nat :=
  sum_list_with (fun entry => length (java_files entry.2)) entries.

(** ** Characters *)

(** The characters that generate_section writes whatever the mapping holds:
    those of the heading, of the bullets, of the link syntax and of BASE_DIR. *)
Definition fixed_text : list N :=
  TOPICS_HEADING ++ [NL] ++ lit "- *[]()/" ++ BASE_DIR.

(** Keys of ASCII characters: the case mapping of str.capitalize() is
    modelled for these. *)
Definition ascii_keys (topics : gmap (list N) (list (list N))) : Prop :=
  map_Forall (fun k _ => Forall is_ascii k) topics.

(** ** Text that UTF-8 encodes *)

(** A lone surrogate: os.walk decodes the bytes of a file name that are not
    UTF-8 as U+DC80 to U+DCFF, and the UTF-8 encoder of f.write refuses every
    code point from U+D800 to U+DFFF.  A text read with encoding="utf-8"
    holds none. *)
Definition is_surrogate (c : N) : bool := (0xD800 <=? c)%N && (c <=? 0xDFFF)%N.

Definition encodable (s : list N) : Prop := Forall (fun c => is_surrogate c = false) s.

(** ** Plain names *)

(** U+1F6E0, the emoji of the end heading. *)
Definition HAMMER_AND_WRENCH : N := 0x1F6E0%N.

(** A tree of plain names: the directory names are of ASCII characters and
    hold no backslash, the names of the .java files hold no backslash, not
    the emoji of the end heading and no lone surrogate (they are UTF-8). *)
Definition plain_tree (d : dir) : Prop :=
  Forall (fun item =>
            Forall (fun n => Forall is_ascii n /\ (BACKSLASH ∉ n)) item.1
            /\ Forall (fun f => (BACKSLASH ∉ f) /\ (HAMMER_AND_WRENCH ∉ f) /\ encodable f)
                 (java_files item.2))
         (dirs_of [] d).

#[global] Instance plain_tree_dec (d : dir) : Decision (plain_tree d).
Proof. unfold plain_tree, is_ascii, encodable. apply _. Defined.

(** ** Templates *)





(** * Properties *)

(** ** Occurrences of a text in a text *)

Lemma app_split_le {A} (a b x y : list A) :
  a ++ x = b ++ y -> length a <= length b -> exists d, b = a ++ d /\ x = d ++ y.
Proof.
  intros Heq Hlen.
  destruct (app_eq_app _ _ _ _ Heq) as [d [[-> ->] | [-> ->]]].
  - rewrite length_app in Hlen.
    destruct d; [| simpl in Hlen; lia].
    exists []. by rewrite !app_nil_r.
  - by exists d.
Qed.

Lemma starts_with_Some p s r : starts_with p s = Some r <-> s = p ++ r.
Proof.
  revert s. induction p as [|a p IH]; intros s; simpl.
  - split; congruence.
  - destruct s as [|b s]; [split; discriminate|].
    destruct (N.eqb_spec a b) as [->|Hne].
    + rewrite IH. split; congruence.
    + split; [discriminate | congruence].
Qed.

Lemma starts_with_app p r : starts_with p (p ++ r) = Some r.
Proof. by apply starts_with_Some. Qed.

Lemma starts_with_None p s : starts_with p s = None <-> forall r, s <> p ++ r.
Proof.
  split.
  - intros HN r ->. by rewrite starts_with_app in HN.
  - intros H. destruct (starts_with p s) as [r|] eqn:E; [|done].
    apply starts_with_Some in E. by destruct (H r).
Qed.

Lemma first_occurrence_unique p s a b a' b' :
  first_occurrence p s a b -> first_occurrence p s a' b' -> a = a' /\ b = b'.
Proof.
  intros [E1 M1] [E2 M2].
  pose proof (M1 _ _ E2). pose proof (M2 _ _ E1).
  assert (length a = length a') as Hl by lia.
  rewrite E1 in E2. apply app_inj_1 in E2 as [-> E2]; [|done].
  by apply app_inv_head in E2.
Qed.

Lemma first_occurrence_cons p s c a b :
  (forall r, c :: s <> p ++ r) ->
  first_occurrence p s a b -> first_occurrence p (c :: s) (c :: a) b.
Proof.
  intros Hno [-> Hmin]. split; [done|].
  intros [|c' a'] b' Heq.
  - by destruct (Hno b').
  - simpl in Heq. injection Heq as -> Heq. simpl. apply Hmin in Heq. lia.
Qed.

(** ** The matcher on the pattern of the script *)

Lemma re_match_lit d l s :
  re_match d [Lit l] s = match starts_with l s with
                         | Some s' => Some (l, s')
                         | None => None
                         end.
Proof. simpl. destruct (starts_with l s); [|done]. by rewrite app_nil_r. Qed.

Lemma re_match_lazy d p s :
  re_match d (LazyDotStar :: p) s =
  match re_match d p s with
  | Some mr => Some mr
  | None =>
      match s with
      | [] => None
      | c :: s' =>
          if dot_matches d c then
            match re_match d (LazyDotStar :: p) s' with
            | Some (m, r) => Some (c :: m, r)
            | None => None
            end
          else None
      end
  end.
Proof. by destruct s. Qed.

Lemma re_match_lazy_dotall p s :
  re_match true (LazyDotStar :: p) s =
  match re_match true p s with
  | Some mr => Some mr
  | None =>
      match s with
      | [] => None
      | c :: s' =>
          match re_match true (LazyDotStar :: p) s' with
          | Some (m, r) => Some (c :: m, r)
          | None => None
          end
      end
  end.
Proof. by destruct s. Qed.

Lemma re_match_lit_cons d l p s :
  re_match d (Lit l :: p) s =
  match starts_with l s with
  | Some s' =>
      match re_match d p s' with
      | Some (m, r) => Some (l ++ m, r)
      | None => None
      end
  | None => None
  end.
Proof. done. Qed.

(** With re.S, [.*?] followed by a literal finds the first occurrence of the
    literal. *)
Lemma lazy_until_Some e s m r :
  re_match true [LazyDotStar; Lit e] s = Some (m, r) ->
  exists mid, m = mid ++ e /\ first_occurrence e s mid r.
Proof.
  revert m r. induction s as [|c s IH]; intros m r; rewrite re_match_lazy_dotall, re_match_lit.
  - destruct (starts_with e []) as [s'|] eqn:E; [|done].
    intros [= <- <-]. apply starts_with_Some in E.
    exists []. split; [done|]. split; [done|]. intros; simpl; lia.
  - destruct (starts_with e (c :: s)) as [s'|] eqn:E.
    + intros [= <- <-]. apply starts_with_Some in E.
      exists []. split; [done|]. split; [done|]. intros; simpl; lia.
    + destruct (re_match true [LazyDotStar; Lit e] s) as [[m' r']|] eqn:E'; [|done].
      intros [= <- <-].
      destruct (IH _ _ eq_refl) as (mid & -> & Hfirst).
      exists (c :: mid). split; [done|].
      apply first_occurrence_cons; [|done]. by apply starts_with_None.
Qed.

Lemma lazy_until_None e s :
  re_match true [LazyDotStar; Lit e] s = None -> ~ occurs e s.
Proof.
  induction s as [|c s IH]; rewrite re_match_lazy_dotall, re_match_lit.
  - destruct (starts_with e []) as [s'|] eqn:E; [done|].
    intros _ (a & b & Heq). destruct a; [|done].
    rewrite starts_with_None in E. by destruct (E b).
  - destruct (starts_with e (c :: s)) as [s'|] eqn:E; [done|].
    destruct (re_match true [LazyDotStar; Lit e] s) as [[m' r']|] eqn:E'; [done|].
    intros _ (a & b & Heq). destruct a as [|c' a].
    + rewrite starts_with_None in E. by destruct (E b).
    + injection Heq as -> Heq. apply IH; [done|]. by exists a, b.
Qed.

Lemma lazy_until_first e s mid r :
  first_occurrence e s mid r ->
  re_match true [LazyDotStar; Lit e] s = Some (mid ++ e, r).
Proof.
  intros Hfirst.
  destruct (re_match true [LazyDotStar; Lit e] s) as [[m r']|] eqn:E.
  - apply lazy_until_Some in E as (mid' & -> & Hfirst').
    by destruct (first_occurrence_unique _ _ _ _ _ _ Hfirst Hfirst') as [-> ->].
  - apply lazy_until_None in E. destruct E. destruct Hfirst as [-> _]. by eexists _, _.
Qed.

Lemma heading_lengths :
  length TOPICS_HEADING = 22 /\ length REQUIREMENTS_HEADING = 17.
Proof. by vm_compute. Qed.

Lemma pattern_match_Some s m r :
  re_match true pattern s = Some (m, r) ->
  exists mid, m = TOPICS_HEADING ++ mid ++ REQUIREMENTS_HEADING
              /\ s = TOPICS_HEADING ++ mid ++ REQUIREMENTS_HEADING ++ r
              /\ first_occurrence REQUIREMENTS_HEADING
                   (mid ++ REQUIREMENTS_HEADING ++ r) mid r.
Proof.
  unfold pattern. rewrite re_match_lit_cons.
  destruct (starts_with TOPICS_HEADING s) as [s'|] eqn:E; [|done].
  apply starts_with_Some in E as ->.
  destruct (re_match true _ s') as [[m' r']|] eqn:E'; [|done].
  intros [= <- <-]. apply lazy_until_Some in E' as (mid & -> & Hfirst).
  exists mid. destruct Hfirst as [-> Hmin]. by repeat split.
Qed.

Lemma pattern_match_None s c :
  re_match true pattern s = None -> s = TOPICS_HEADING ++ c ->
  ~ occurs REQUIREMENTS_HEADING c.
Proof.
  unfold pattern. rewrite re_match_lit_cons. intros HN ->.
  rewrite starts_with_app in HN.
  destruct (re_match true _ c) as [[m' r']|] eqn:E'; [done|].
  by apply lazy_until_None.
Qed.

Lemma pattern_match_first mid r :
  first_occurrence REQUIREMENTS_HEADING (mid ++ REQUIREMENTS_HEADING ++ r) mid r ->
  re_match true pattern (TOPICS_HEADING ++ mid ++ REQUIREMENTS_HEADING ++ r)
  = Some (TOPICS_HEADING ++ mid ++ REQUIREMENTS_HEADING, r).
Proof.
  intros Hfirst. unfold pattern. rewrite re_match_lit_cons, starts_with_app.
  by rewrite (lazy_until_first _ _ _ _ Hfirst).
Qed.

Lemma first_region_eq s before mid after :
  first_region s before mid after ->
  s = before ++ TOPICS_HEADING ++ mid ++ REQUIREMENTS_HEADING ++ after.
Proof. by intros [[-> _] _]. Qed.

Lemma first_region_unique s b mid r b' mid' r' :
  first_region s b mid r -> first_region s b' mid' r' ->
  b = b' /\ mid = mid' /\ r = r'.
Proof.
  intros [H1 H2] [H1' H2'].
  destruct (first_occurrence_unique _ _ _ _ _ _ H1 H1') as [-> Heq].
  rewrite <- Heq in H2'.
  by destruct (first_occurrence_unique _ _ _ _ _ _ H2 H2') as [-> ->].
Qed.

Lemma first_region_has_markers s b mid r : first_region s b mid r -> has_markers s.
Proof. intros H. apply first_region_eq in H. by exists b, mid, r. Qed.

Lemma re_search_unfold d p s :
  re_search d p s =
  match re_match d p s with
  | Some (m, r) => Some ([], m, r)
  | None =>
      match s with
      | [] => None
      | c :: s' =>
          match re_search d p s' with
          | Some (b, m, r) => Some (c :: b, m, r)
          | None => None
          end
      end
  end.
Proof. by destruct s. Qed.

Lemma pattern_match_nil : re_match true pattern [] = None.
Proof. by vm_compute. Qed.

Lemma search_Some s b m r :
  re_search true pattern s = Some (b, m, r) ->
  exists mid, m = TOPICS_HEADING ++ mid ++ REQUIREMENTS_HEADING /\ first_region s b mid r.
Proof.
  revert b. induction s as [|c s IH]; intros b; rewrite re_search_unfold.
  - by rewrite pattern_match_nil.
  - destruct (re_match true pattern (c :: s)) as [[m' r']|] eqn:E.
    + intros [= <- -> ->]. apply pattern_match_Some in E as (mid & -> & E & Hfirst).
      exists mid. split; [done|]. split; [|done].
      split; [done|]. intros; apply Nat.le_0_l.
    + destruct (re_search true pattern s) as [[[b' m'] r']|] eqn:E'; [|done].
      intros [= <- -> ->].
      destruct (IH _ eq_refl) as (mid & -> & Hocc & Hfirst).
      exists mid. split; [done|]. split; [|done].
      apply first_occurrence_cons; [|done].
      intros x Heq. destruct Hocc as [-> _].
      destruct (app_split_le TOPICS_HEADING (c :: b' ++ TOPICS_HEADING) x
                  (mid ++ REQUIREMENTS_HEADING ++ r)) as (d & _ & ->).
      { rewrite <- Heq. simpl. by rewrite <- app_assoc. }
      { rewrite length_cons, length_app. lia. }
      eapply pattern_match_None; [exact E | exact Heq |].
      exists (d ++ mid), r. by rewrite <- !app_assoc.
Qed.

Lemma search_None s : re_search true pattern s = None -> ~ has_markers s.
Proof.
  induction s as [|c s IH]; rewrite re_search_unfold.
  - intros _ (a & mid & b & Heq). by destruct a.
  - destruct (re_match true pattern (c :: s)) as [[m' r']|] eqn:E; [done|].
    destruct (re_search true pattern s) as [[[b' m'] r']|] eqn:E'; [done|].
    intros _ (a & mid & b & Heq). destruct a as [|c' a].
    + eapply pattern_match_None; [exact E | exact Heq |]. by exists mid, b.
    + injection Heq as -> Heq. apply IH; [done|]. by exists a, mid, b.
Qed.

Lemma search_first_region s b mid r :
  first_region s b mid r ->
  re_search true pattern s = Some (b, TOPICS_HEADING ++ mid ++ REQUIREMENTS_HEADING, r).
Proof.
  intros Hreg.
  destruct (re_search true pattern s) as [[[b' m'] r']|] eqn:E.
  - apply search_Some in E as (mid' & -> & Hreg').
    by destruct (first_region_unique _ _ _ _ _ _ _ Hreg Hreg') as (-> & -> & ->).
  - apply search_None in E. destruct E. by eapply first_region_has_markers.
Qed.

Lemma search_no_markers s : ~ has_markers s -> re_search true pattern s = None.
Proof.
  intros Hno. destruct (re_search true pattern s) as [[[b m] r]|] eqn:E; [|done].
  apply search_Some in E as (mid & _ & Hreg). destruct Hno.
  by eapply first_region_has_markers.
Qed.

(** A document with the marker pair has a first region. *)
Lemma has_markers_first_region s :
  has_markers s -> exists b mid r, first_region s b mid r.
Proof.
  intros Hm. destruct (re_search true pattern s) as [[[b m] r]|] eqn:E.
  - apply search_Some in E as (mid & _ & Hreg). by exists b, mid, r.
  - by apply search_None in E.
Qed.

(** ** The loop of re.sub *)

Lemma search_shorter s b m r :
  re_search true pattern s = Some (b, m, r) -> length r < length s.
Proof.
  intros E. apply search_Some in E as (mid & -> & Hreg).
  apply first_region_eq in Hreg as ->.
  rewrite !length_app. destruct heading_lengths as [-> ->]. lia.
Qed.

Lemma sub_loop_fuel repl n1 : forall n2 s,
  length s <= n1 -> length s <= n2 ->
  sub_loop n1 true pattern repl s = sub_loop n2 true pattern repl s.
Proof.
  induction n1 as [|n1 IH]; intros [|n2] s H1 H2; simpl; try done.
  - destruct s; [done | simpl in H1; lia].
  - destruct s; [done | simpl in H2; lia].
  - destruct (re_search true pattern s) as [[[b m] r]|] eqn:E; [|done].
    apply search_shorter in E. do 2 f_equal. apply IH; lia.
Qed.

Lemma sub_all_unfold repl s :
  sub_all true pattern repl s =
  match re_search true pattern s with
  | None => s
  | Some (b, m, r) => b ++ repl m ++ sub_all true pattern repl r
  end.
Proof.
  unfold sub_all. destruct s as [|c s]; [done|].
  change (length (c :: s)) with (S (length s)). cbn [sub_loop].
  destruct (re_search true pattern (c :: s)) as [[[b m] r]|] eqn:E; [|done].
  apply search_shorter in E. simpl in E. do 2 f_equal. apply sub_loop_fuel; lia.
Qed.

Lemma sub_all_ext f g s :
  (forall m, f m = g m) -> sub_all true pattern f s = sub_all true pattern g s.
Proof.
  intros Hfg. unfold sub_all. generalize (length s) as n. intros n. revert s.
  induction n as [|n IH]; intros s; simpl; [done|].
  destruct (re_search true pattern s) as [[[b m] r]|]; [|done].
  by rewrite Hfg, IH.
Qed.

Lemma sub_all_no_markers repl s : ~ has_markers s -> sub_all true pattern repl s = s.
Proof. intros H. by rewrite sub_all_unfold, search_no_markers. Qed.

Lemma sub_all_first_region repl s b mid r :
  first_region s b mid r ->
  sub_all true pattern repl s =
  b ++ repl (TOPICS_HEADING ++ mid ++ REQUIREMENTS_HEADING) ++ sub_all true pattern repl r.
Proof. intros H. by rewrite sub_all_unfold, (search_first_region _ _ _ _ H). Qed.

(** ** Templates without a backslash are literal *)

Lemma lookahead_no_backslash {A} rest (k : result A) :
  BACKSLASH ∉ rest -> lookahead rest k = k.
Proof.
  intros H. destruct rest as [|c [|c' rest]]; try done. simpl.
  destruct (N.eqb_spec c BACKSLASH) as [->|]; [|done]. destruct H. by left.
Qed.

Lemma parse_template_literal groups s :
  BACKSLASH ∉ s -> parse_template groups s = Ok (map (fun c => TLit [c]) s).
Proof.
  induction s as [|c s IH]; intros H; [done|].
  apply not_elem_of_cons in H as [Hc Hs]. cbn [parse_template].
  destruct (N.eqb_spec c BACKSLASH) as [->|_]; [done|]. cbn [negb].
  rewrite lookahead_no_backslash, IH by done. done.
Qed.

Lemma expand_template_literal s m :
  expand_template (map (fun c => TLit [c]) s) m = s.
Proof. induction s as [|c s IH]; [done|]. simpl. by f_equal. Qed.

Lemma requirements_heading_no_backslash : BACKSLASH ∉ REQUIREMENTS_HEADING.
Proof. apply (bool_decide_unpack _). by vm_compute. Qed.

Lemma replace_section_literal content block :
  BACKSLASH ∉ block ->
  replace_section content block =
  Ok (sub_all true pattern (fun _ => block ++ [NL] ++ REQUIREMENTS_HEADING) content).
Proof.
  intros H. unfold replace_section, re_sub.
  rewrite parse_template_literal.
  - simpl. f_equal. apply sub_all_ext. intros m. apply expand_template_literal.
  - rewrite !not_elem_of_app. split; [done|]. split.
    + apply not_elem_of_cons. split; [done | apply not_elem_of_nil].
    + apply requirements_heading_no_backslash.
Qed.

(** ** replace_section *)

Lemma sub_all_all_regions repl s :
  all_regions_replaced repl s (sub_all true pattern repl s).
Proof.
  remember (length s) as n eqn:Hn. revert s Hn.
  induction n as [n IH] using lt_wf_ind. intros s ->.
  rewrite sub_all_unfold.
  destruct (re_search true pattern s) as [[[b m] r]|] eqn:E.
  - pose proof (search_shorter _ _ _ _ E) as Hlt.
    apply search_Some in E as (mid & -> & Hreg).
    eapply next_region; [exact Hreg|]. by eapply IH.
  - apply no_region. by apply search_None.
Qed.

Lemma replace_section_template content block tpl :
  parse_template 0 (block ++ [NL] ++ REQUIREMENTS_HEADING) = Ok tpl ->
  replace_section content block = Ok (sub_all true pattern (expand_template tpl) content).
Proof. intros Htpl. unfold replace_section, re_sub, groups_of. by rewrite Htpl. Qed.

Lemma template_of_literal block tpl m :
  parse_template 0 (block ++ [NL] ++ REQUIREMENTS_HEADING) = Ok tpl ->
  BACKSLASH ∉ block ->
  expand_template tpl m = block ++ [NL] ++ REQUIREMENTS_HEADING.
Proof.
  intros Htpl Hbs. rewrite parse_template_literal in Htpl.
  - injection Htpl as <-. apply expand_template_literal.
  - rewrite !not_elem_of_app. split; [done|]. split.
    + apply not_elem_of_cons. split; [done | apply not_elem_of_nil].
    + apply requirements_heading_no_backslash.
Qed.

(** C1 (amended): replace_section replaces every region of the document, not
    only the first.  For a block that re accepts as a replacement template
    the result is the document with each region, found from left to right,
    replaced by the expansion of the template, which for a block without a
    backslash is the block, a newline and the end heading. *)
Theorem replace_section_replaces_every_region (content block : list N)
  (tpl : list template_item) :
  parse_template 0 (block ++ [NL] ++ REQUIREMENTS_HEADING) = Ok tpl ->
  exists out,
    replace_section content block = Ok out
    /\ all_regions_replaced (expand_template tpl) content out
    /\ (BACKSLASH ∉ block ->
        forall m, expand_template tpl m = block ++ [NL] ++ REQUIREMENTS_HEADING).
Proof.
  intros Htpl. rewrite (replace_section_template _ _ _ Htpl).
  eexists. split; [reflexivity|]. split; [apply sub_all_all_regions|].
  intros Hbs m. by apply template_of_literal.
Qed.

Lemma not_elem_of_compute (c : N) (s : list N) : bool_decide (c ∉ s) = true -> c ∉ s.
Proof. apply bool_decide_eq_true_1. Qed.

Lemma first_region_compute s b mid r :
  re_search true pattern s = Some (b, TOPICS_HEADING ++ mid ++ REQUIREMENTS_HEADING, r) ->
  first_region s b mid r.
Proof.
  intros E. apply search_Some in E as (mid' & Heq & Hreg).
  apply app_inv_head, app_inv_tail in Heq. by subst.
Qed.

Lemma replace_section_replaces_every_region_witness :
  exists out,
    replace_section two_regions (generate_section ∅) = Ok out
    /\ all_regions_replaced
         (expand_template
            (map (fun c => TLit [c]) (generate_section ∅ ++ [NL] ++ REQUIREMENTS_HEADING)))
         two_regions out
    /\ (BACKSLASH ∉ generate_section ∅ ->
        forall m,
          expand_template
            (map (fun c => TLit [c]) (generate_section ∅ ++ [NL] ++ REQUIREMENTS_HEADING)) m
          = generate_section ∅ ++ [NL] ++ REQUIREMENTS_HEADING).
Proof.
  apply replace_section_replaces_every_region. by vm_compute.
Defined.

(** C1 as stated fails: in a document with two regions the second one is
    replaced too; and a block whose display name is a group reference is
    refused as a template. *)
Lemma replace_section_first_only_counterexample :
  (exists out, replace_section two_regions (generate_section ∅) = Ok out
               /\ ~ first_region_replaced
                      (generate_section ∅ ++ [NL] ++ REQUIREMENTS_HEADING) two_regions out)
  /\ replace_section two_regions (generate_section (one_file (lit "t") (lit "\1.java")))
     = Raise (re_error (invalid_group_reference 1)).
Proof.
  split; [|by vm_compute].
  eexists. split; [by vm_compute|].
  intros (before & mid & after & Hreg & Hout).
  assert (first_region two_regions (lit "A") (lit "old")
            (lit "B" ++ TOPICS_HEADING ++ lit "older" ++ REQUIREMENTS_HEADING ++ lit "C"))
    as Hreg' by (apply first_region_compute; by vm_compute).
  destruct (first_region_unique _ _ _ _ _ _ _ Hreg Hreg') as (-> & -> & ->).
  vm_compute in Hout. discriminate Hout.
Qed.

(** C3 (amended): on a document without the marker pair replace_section
    gives the document back unchanged whenever the block is accepted as a
    replacement template, as every block without a backslash is; a block that
    is refused as a template raises, marker pair or not. *)
Theorem replace_section_without_markers (content block : list N) :
  ~ has_markers content ->
  (BACKSLASH ∉ block -> replace_section content block = Ok content)
  /\ match parse_template 0 (block ++ [NL] ++ REQUIREMENTS_HEADING) with
     | Ok _ => replace_section content block = Ok content
     | Raise e => replace_section content block = Raise e
     end.
Proof.
  intros Hno. split.
  - intros Hbs. rewrite replace_section_literal by done.
    by rewrite sub_all_no_markers.
  - unfold replace_section, re_sub, groups_of.
    destruct (parse_template 0 _) as [tpl|e]; simpl; [|done].
    by rewrite sub_all_no_markers.
Qed.

Lemma no_markers_compute s : re_search true pattern s = None -> ~ has_markers s.
Proof. apply search_None. Qed.

Lemma replace_section_without_markers_witness :
  (BACKSLASH ∉ generate_section ∅ ->
   replace_section (lit "# Title") (generate_section ∅) = Ok (lit "# Title"))
  /\ match parse_template 0 (generate_section ∅ ++ [NL] ++ REQUIREMENTS_HEADING) with
     | Ok _ => replace_section (lit "# Title") (generate_section ∅) = Ok (lit "# Title")
     | Raise e => replace_section (lit "# Title") (generate_section ∅) = Raise e
     end.
Proof.
  apply replace_section_without_markers.
  apply no_markers_compute. by vm_compute.
Defined.

(** C3 as stated fails: the block rendered for a file named \1.java is
    refused as a template although the document has no marker pair. *)
Lemma replace_section_without_markers_counterexample :
  ~ has_markers (lit "# Title")
  /\ replace_section (lit "# Title") (generate_section (one_file (lit "t") (lit "\1.java")))
     = Raise (re_error (invalid_group_reference 1)).
Proof.
  split; [|by vm_compute]. apply no_markers_compute. by vm_compute.
Qed.

(** C4 (amended): for a block that re accepts as a replacement template, the
    text before the first start heading is kept, the first region becomes
    the expansion of the template (the block, a newline and the end heading
    when the block has no backslash), and the text after the first end
    heading is spliced in the same way: it is kept as it is only when it
    holds no further marker pair. *)
Theorem replace_section_frame (content block before mid after : list N)
  (tpl : list template_item) :
  parse_template 0 (block ++ [NL] ++ REQUIREMENTS_HEADING) = Ok tpl ->
  first_region content before mid after ->
  exists rest,
    replace_section after block = Ok rest
    /\ replace_section content block
       = Ok (before
             ++ expand_template tpl (TOPICS_HEADING ++ mid ++ REQUIREMENTS_HEADING)
             ++ rest)
    /\ (~ has_markers after -> rest = after)
    /\ (BACKSLASH ∉ block ->
        expand_template tpl (TOPICS_HEADING ++ mid ++ REQUIREMENTS_HEADING)
        = block ++ [NL] ++ REQUIREMENTS_HEADING).
Proof.
  intros Htpl Hreg. rewrite !(replace_section_template _ _ _ Htpl).
  eexists. split; [reflexivity|]. split; [|split].
  - by rewrite (sub_all_first_region _ _ _ _ _ Hreg).
  - intros Hno. by apply sub_all_no_markers.
  - intros Hbs. by apply template_of_literal.
Qed.

Lemma replace_section_frame_witness :
  exists rest,
    replace_section (lit "B") (generate_section ∅) = Ok rest
    /\ replace_section (lit "A" ++ TOPICS_HEADING ++ lit "old" ++ REQUIREMENTS_HEADING ++ lit "B")
         (generate_section ∅)
       = Ok (lit "A"
             ++ expand_template
                  (map (fun c => TLit [c])
                     (generate_section ∅ ++ [NL] ++ REQUIREMENTS_HEADING))
                  (TOPICS_HEADING ++ lit "old" ++ REQUIREMENTS_HEADING)
             ++ rest)
    /\ (~ has_markers (lit "B") -> rest = lit "B")
    /\ (BACKSLASH ∉ generate_section ∅ ->
        expand_template
          (map (fun c => TLit [c]) (generate_section ∅ ++ [NL] ++ REQUIREMENTS_HEADING))
          (TOPICS_HEADING ++ lit "old" ++ REQUIREMENTS_HEADING)
        = generate_section ∅ ++ [NL] ++ REQUIREMENTS_HEADING).
Proof.
  apply (replace_section_frame _ _ (lit "A") (lit "old") (lit "B")).
  - by vm_compute.
  - apply first_region_compute. by vm_compute.
Defined.

Lemma app_suffix_drop {A} (x y : list A) :
  drop (length (x ++ y) - length y) (x ++ y) = y.
Proof.
  rewrite length_app. replace (length x + length y - length y) with (length x) by lia.
  by rewrite drop_app_length.
Qed.

(** C4 as stated fails: in a document with two regions the text after the
    first end heading holds the second region, and that one is replaced; and
    for the block of a file named \2.java there is no output at all. *)
Lemma replace_section_frame_counterexample :
  (exists out, replace_section two_regions (generate_section ∅) = Ok out
               /\ ~ outside_first_region_kept two_regions out)
  /\ replace_section two_regions (generate_section (one_file (lit "t") (lit "\2.java")))
     = Raise (re_error (invalid_group_reference 2)).
Proof.
  split; [|by vm_compute].
  eexists. split; [by vm_compute|].
  intros (before & mid & after & region & Hreg & Hout).
  assert (first_region two_regions (lit "A") (lit "old")
            (lit "B" ++ TOPICS_HEADING ++ lit "older" ++ REQUIREMENTS_HEADING ++ lit "C"))
    as Hreg' by (apply first_region_compute; by vm_compute).
  destruct (first_region_unique _ _ _ _ _ _ _ Hreg Hreg') as (-> & -> & ->).
  rewrite app_assoc in Hout.
  pose proof (app_suffix_drop (lit "A" ++ region)
    (lit "B" ++ TOPICS_HEADING ++ lit "older" ++ REQUIREMENTS_HEADING ++ lit "C")) as Hd.
  rewrite <- Hout in Hd. vm_compute in Hd. discriminate Hd.
Qed.

(** ** Running main twice *)

Lemma first_occurrence_other_tail p b c c' :
  first_occurrence p (b ++ p ++ c) b c -> first_occurrence p (b ++ p ++ c') b c'.
Proof.
  intros [_ Hmin]. split; [done|]. intros a x Heq.
  destruct (Nat.le_gt_cases (length b) (length a)) as [|Hlt]; [done|].
  destruct (app_split_le (a ++ p) (b ++ p) x c') as (d & Hd & _).
  { by rewrite <- !app_assoc. }
  { rewrite !length_app. lia. }
  apply (Hmin a (d ++ c)). by rewrite (app_assoc b), Hd, <- !app_assoc.
Qed.

Lemma first_occurrence_extend p u a z t :
  first_occurrence p u a z -> first_occurrence p (u ++ t) a (z ++ t).
Proof.
  intros [-> Hmin]. split; [by rewrite <- !app_assoc|]. intros a' b' Heq.
  destruct (Nat.le_gt_cases (length a) (length a')) as [|Hlt]; [done|].
  destruct (app_split_le (a' ++ p) (a ++ p ++ z) b' t) as (d & Hd & _).
  { rewrite <- (app_assoc a' p b'). by symmetry. }
  { rewrite !length_app. lia. }
  apply (Hmin a' d). by rewrite Hd, <- app_assoc.
Qed.

Lemma first_occurrence_exists p s :
  occurs p s -> exists a b, first_occurrence p s a b.
Proof.
  intros Hocc.
  destruct (re_match true [LazyDotStar; Lit p] s) as [[m r]|] eqn:E.
  - apply lazy_until_Some in E as (mid & _ & Hfirst). by exists mid, r.
  - by apply lazy_until_None in E.
Qed.

Lemma generate_section_heading topics :
  exists y, generate_section topics = TOPICS_HEADING ++ y.
Proof.
  unfold generate_section, section_lines.
  destruct (flat_map topic_lines _) as [|l ls].
  - by exists [NL].
  - eexists. cbn [app str_join]. by rewrite <- app_assoc.
Qed.



Section splice_twice.
Variable y : list N.

Abbreviation new := (spliced_region y).
Abbreviation splice := (splice_block y).

(** The first region of a spliced document does not depend on what follows it. *)
Lemma spliced_first_region :
  exists mid1 z, forall s b mid r t,
    first_region s b mid r -> first_region (b ++ new ++ t) b mid1 (z ++ t).
Proof.
  destruct (first_occurrence_exists REQUIREMENTS_HEADING
              ((y ++ [NL]) ++ REQUIREMENTS_HEADING)) as (mid1 & z & Hfirst).
  { exists (y ++ [NL]), []. by rewrite app_nil_r. }
  exists mid1, z. intros s b mid r t [[-> Hs] _].
  pose proof (first_occurrence_extend _ _ _ _ t Hfirst) as Hext.
  destruct Hext as [Heq Hmin].
  assert (new ++ t = TOPICS_HEADING ++ mid1 ++ REQUIREMENTS_HEADING ++ z ++ t) as Hnew.
  { unfold spliced_region. rewrite <- !app_assoc. f_equal.
    rewrite <- !app_assoc in Heq. exact Heq. }
  rewrite Hnew. split.
  - apply first_occurrence_other_tail with (c := mid ++ REQUIREMENTS_HEADING ++ r).
    by split.
  - split; [done|]. intros a' b' Heq'. apply (Hmin a' b').
    by rewrite <- Heq'.
Qed.

Lemma splice_first_region s b mid r :
  first_region s b mid r -> splice s = b ++ new ++ splice r.
Proof. intros H. unfold splice_block. by rewrite (sub_all_first_region _ _ _ _ _ H). Qed.

Lemma marker_region_first_region s b mid r :
  first_region s b mid r ->
  marker_region s = Some (TOPICS_HEADING ++ mid ++ REQUIREMENTS_HEADING).
Proof. intros H. unfold marker_region. by rewrite (search_first_region _ _ _ _ H). Qed.

Lemma splice_twice_region s : marker_region (splice (splice s)) = marker_region (splice s).
Proof.
  destruct (re_search true pattern s) as [[[b m] r]|] eqn:E.
  - apply search_Some in E as (mid & -> & Hreg).
    destruct spliced_first_region as (mid1 & z & Hstable).
    rewrite (splice_first_region _ _ _ _ Hreg).
    pose proof (Hstable _ _ _ _ (splice r) Hreg) as Hreg1.
    rewrite (splice_first_region _ _ _ _ Hreg1).
    rewrite (marker_region_first_region _ _ _ _ Hreg1).
    apply (marker_region_first_region _ _ _ _ (Hstable _ _ _ _ _ Hreg)).
  - apply search_None in E. unfold splice_block.
    by rewrite !(sub_all_no_markers _ s E).
Qed.


End splice_twice.

Lemma bind_Ok {A B} (a : A) (k : A -> result B) : (Ok a ≫= k) = k a.
Proof. done. Qed.

Lemma main_Ok w content out :
  readme w = Some content ->
  replace_section content (rendered_block w) = Ok out ->
  main w = Ok (World (cwd w) (scan_root w) (Some out)).
Proof.
  intros Hreadme Hout. unfold main, read_readme, rendered_block in *.
  by rewrite Hreadme, bind_Ok, Hout, bind_Ok.
Qed.

(** ** The order of sorted *)

Section seq_order.
Context {A : Type} (eqb ltb : A -> A -> bool).
Hypothesis eqb_eq : forall x y, eqb x y = true <-> x = y.
Hypothesis ltb_irrefl : forall x, ltb x x = false.
Hypothesis ltb_trans : forall x y z, ltb x y = true -> ltb y z = true -> ltb x z = true.
Hypothesis ltb_total : forall x y, ltb x y = false -> ltb y x = false -> x = y.

Lemma eqb_refl x : eqb x x = true.
Proof. by apply eqb_eq. Qed.

Lemma eqb_false x y : eqb x y = false <-> x <> y.
Proof. rewrite <- eqb_eq. by destruct (eqb x y). Qed.

Lemma ltb_asym x y : ltb x y = true -> ltb y x = false.
Proof.
  intros Hxy. destruct (ltb y x) eqn:Hyx; [|done].
  by rewrite <- (ltb_irrefl x), (ltb_trans x y x).
Qed.

Lemma seq_ltb_irrefl a : seq_ltb eqb ltb a a = false.
Proof. induction a as [|x a IH]; [done|]. simpl. by rewrite eqb_refl. Qed.

Lemma seq_ltb_trans a : forall b c,
  seq_ltb eqb ltb a b = true -> seq_ltb eqb ltb b c = true -> seq_ltb eqb ltb a c = true.
Proof.
  induction a as [|x a IH]; intros [|y b] [|z c]; simpl; try done.
  destruct (eqb x y) eqn:Exy.
  - apply eqb_eq in Exy as ->. destruct (eqb y z); [apply IH | done].
  - destruct (eqb y z) eqn:Eyz.
    + apply eqb_eq in Eyz as ->. by rewrite Exy.
    + intros Hxy Hyz. pose proof (ltb_trans _ _ _ Hxy Hyz) as Hxz.
      destruct (eqb x z) eqn:Exz; [|done].
      apply eqb_eq in Exz as ->. by rewrite (ltb_asym _ _ Hxy) in Hyz.
Qed.

Lemma seq_ltb_total a : forall b,
  seq_ltb eqb ltb a b = false -> seq_ltb eqb ltb b a = false -> a = b.
Proof.
  induction a as [|x a IH]; intros [|y b]; simpl; try done.
  destruct (eqb x y) eqn:Exy.
  - apply eqb_eq in Exy as ->. rewrite eqb_refl. intros. f_equal. by apply IH.
  - destruct (eqb y x) eqn:Eyx.
    + apply eqb_eq in Eyx as ->. by rewrite eqb_refl in Exy.
    + intros Hxy Hyx. apply eqb_false in Exy. by destruct Exy; apply ltb_total.
Qed.

Lemma seq_ltb_asym a b : seq_ltb eqb ltb a b = true -> seq_ltb eqb ltb b a = false.
Proof.
  intros Hab. destruct (seq_ltb eqb ltb b a) eqn:Hba; [|done].
  by rewrite <- (seq_ltb_irrefl a), (seq_ltb_trans a b a).
Qed.

End seq_order.

Lemma N_ltb_total x y : (x <? y)%N = false -> (y <? x)%N = false -> x = y.
Proof. rewrite !N.ltb_ge. lia. Qed.

Lemma N_ltb_trans x y z : (x <? y)%N = true -> (y <? z)%N = true -> (x <? z)%N = true.
Proof. rewrite !N.ltb_lt. lia. Qed.

Lemma str_eqb_eq (a b : list N) : str_eqb a b = true <-> a = b.
Proof. apply bool_decide_eq_true. Qed.

Lemma str_ltb_irrefl a : str_ltb a a = false.
Proof. apply seq_ltb_irrefl; [apply N.eqb_eq]. Qed.

Lemma str_ltb_trans a b c : str_ltb a b = true -> str_ltb b c = true -> str_ltb a c = true.
Proof.
  apply seq_ltb_trans;
    [apply N.eqb_eq | apply N.ltb_irrefl | apply N_ltb_trans].
Qed.

Lemma str_ltb_total a b : str_ltb a b = false -> str_ltb b a = false -> a = b.
Proof. apply seq_ltb_total; [apply N.eqb_eq | apply N_ltb_total]. Qed.

Lemma str_ltb_asym a b : str_ltb a b = true -> str_ltb b a = false.
Proof.
  apply seq_ltb_asym;
    [apply N.eqb_eq | apply N.ltb_irrefl | apply N_ltb_trans].
Qed.

Lemma files_ltb_asym a b : files_ltb a b = true -> files_ltb b a = false.
Proof.
  apply seq_ltb_asym;
    [apply str_eqb_eq | apply str_ltb_irrefl | apply str_ltb_trans].
Qed.

Lemma item_ltb_asym a b : item_ltb a b = true -> item_ltb b a = false.
Proof.
  unfold item_ltb. destruct (str_eqb a.1 b.1) eqn:E.
  - apply str_eqb_eq in E. rewrite E.
    rewrite (proj2 (str_eqb_eq b.1 b.1) eq_refl). apply files_ltb_asym.
  - intros H. destruct (str_eqb b.1 a.1) eqn:E'.
    + apply str_eqb_eq in E'. rewrite E' in E.
      by rewrite (proj2 (str_eqb_eq a.1 a.1) eq_refl) in E.
    + by apply str_ltb_asym.
Qed.

Lemma str_lt_trans : Transitive str_lt.
Proof. intros a b c. apply str_ltb_trans. Qed.

Lemma not_after_str_total : Total (not_after str_ltb).
Proof.
  intros a b. unfold not_after.
  destruct (str_ltb b a) eqn:E; [right; by apply str_ltb_asym | by left].
Qed.

Lemma not_after_item_total : Total (not_after item_ltb).
Proof.
  intros a b. unfold not_after.
  destruct (item_ltb b a) eqn:E; [right; by apply item_ltb_asym | by left].
Qed.

#[local] Existing Instance str_lt_trans.
#[local] Existing Instance not_after_str_total.
#[local] Existing Instance not_after_item_total.

(** A list sorted by [<] with no repeated element is sorted strictly. *)
Lemma sorted_files_strict (files : list (list N)) :
  NoDup files -> StronglySorted str_lt (sorted str_ltb files).
Proof.
  intros Hnd. apply Sorted_StronglySorted; [apply _|].
  assert (NoDup (sorted str_ltb files)) as Hnd'.
  { unfold sorted. by rewrite merge_sort_Permutation. }
  pose proof (Sorted_merge_sort (not_after str_ltb) files) as Hs.
  fold (sorted str_ltb files) in Hs.
  induction Hs as [|x l Hs IH Hhd]; [constructor|].
  apply NoDup_cons in Hnd' as [Hx Hl].
  constructor; [by apply IH|].
  destruct Hhd as [|y l Hxy]; constructor.
  unfold str_lt. unfold not_after in Hxy.
  destruct (str_ltb x y) eqn:E; [done|].
  destruct Hx. rewrite (str_ltb_total _ _ E Hxy). by left.
Qed.

Lemma sorted_items_strict (topics : gmap (list N) (list (list N))) :
  StronglySorted str_lt (map fst (sorted item_ltb (map_to_list topics))).
Proof.
  apply Sorted_StronglySorted; [apply _|].
  assert (NoDup (map fst (sorted item_ltb (map_to_list topics)))) as Hnd.
  { unfold sorted. rewrite merge_sort_Permutation. apply NoDup_fst_map_to_list. }
  pose proof (Sorted_merge_sort (not_after item_ltb) (map_to_list topics)) as Hs.
  fold (sorted item_ltb (map_to_list topics)) in Hs.
  induction Hs as [|x l Hs IH Hhd]; [constructor|].
  cbn [map] in Hnd |- *. apply NoDup_cons in Hnd as [Hx Hl].
  constructor; [by apply IH|].
  destruct Hhd as [|y l Hxy]; constructor.
  unfold str_lt. unfold not_after, item_ltb in Hxy. cbn [map] in Hx.
  apply not_elem_of_cons in Hx as [Hne _].
  destruct (str_eqb y.1 x.1) eqn:E.
  { apply str_eqb_eq in E. by destruct Hne. }
  destruct (str_ltb x.1 y.1) eqn:E'; [done|].
  destruct Hne. by apply str_ltb_total.
Qed.

Lemma elem_of_sorted {A} (ltb : A -> A -> bool) (x : A) (l : list A) :
  x ∈ sorted ltb l <-> x ∈ l.
Proof. unfold sorted. by rewrite merge_sort_Permutation. Qed.

Lemma section_lines_blocks topics :
  section_lines topics
  = [TOPICS_HEADING ++ [NL]] ++ flat_map block_lines (rendered_topics topics).
Proof.
  unfold section_lines, rendered_topics. f_equal.
  induction (sorted item_ltb (map_to_list topics)) as [|[k files] l IH]; [done|].
  simpl. by rewrite IH.
Qed.

(** ** generate_section *)

Lemma elem_of_rendered_topics topics k fs :
  (k, fs) ∈ rendered_topics topics <->
  exists files, topics !! k = Some files /\ fs = sorted str_ltb files.
Proof.
  unfold rendered_topics. rewrite list_elem_of_In, in_map_iff. split.
  - intros ([k' files] & [= <- <-] & Hin). exists files. split; [|done].
    by apply list_elem_of_In, elem_of_sorted, elem_of_map_to_list in Hin.
  - intros (files & Hk & ->). exists (k, files). split; [done|].
    by apply list_elem_of_In, elem_of_sorted, elem_of_map_to_list.
Qed.

Lemma elem_of_section_lines topics line k files :
  topics !! k = Some files ->
  line ∈ block_lines (k, sorted str_ltb files) ->
  line ∈ section_lines topics.
Proof.
  intros Hk Hline. rewrite section_lines_blocks.
  apply elem_of_app. right. apply list_elem_of_In, in_flat_map.
  exists (k, sorted str_ltb files). split; apply list_elem_of_In; [|done].
  apply elem_of_rendered_topics. by exists files.
Qed.

Lemma generate_section_lines topics :
  generate_section topics
  = str_join [NL] ([TOPICS_HEADING ++ [NL]] ++ flat_map block_lines (rendered_topics topics)).
Proof. unfold generate_section. by rewrite section_lines_blocks. Qed.

Lemma elem_of_compute {A} `{EqDecision A} (x : A) (l : list A) :
  bool_decide (x ∈ l) = true -> x ∈ l.
Proof. apply bool_decide_eq_true_1. Qed.

Lemma not_elem_of_list_compute {A} `{EqDecision A} (x : A) (l : list A) :
  bool_decide (x ∉ l) = true -> x ∉ l.
Proof. apply bool_decide_eq_true_1. Qed.

(** C2 (amended): the bullet line of a topic shows the key with its first
    character upper-cased and every other character lower-cased, between the
    bold markers; the rest of the key is left as it is only where it has no
    upper-case letter. *)
Theorem topic_bullet_capitalized (topics : gmap (list N) (list (list N)))
  (k : list N) (files : list (list N)) :
  topics !! k = Some files ->
  Forall is_ascii k ->
  ((lit "- **" ++ capitalize k ++ lit "**") ∈ section_lines topics)
  /\ length (capitalize k) = length k
  /\ head (capitalize k) = ascii_upper <$> head k
  /\ tail (capitalize k) = ascii_lower <$> tail k
  /\ (Forall (fun c => ascii_lower c = c) (tail k) -> capitalize k = first_upper_rest_kept k).
Proof.
  intros Hk _. split.
  - eapply elem_of_section_lines; [exact Hk|].
    unfold block_lines. cbn [fst snd app]. by left.
  - destruct k as [|c rest]; [by repeat split|].
    cbn [capitalize head tail first_upper_rest_kept].
    split; [cbn [length]; f_equal; apply List.length_map|].
    split; [done|]. split; [done|].
    intros Hrest. f_equal. clear Hk.
    induction Hrest as [|x l Hx _ IH]; [done|].
    cbn [map]. by rewrite Hx, IH.
Qed.

Lemma topic_bullet_capitalized_witness :
  ((lit "- **" ++ capitalize (lit "designPatterns") ++ lit "**")
     ∈ section_lines (one_file (lit "designPatterns") (lit "Factory.java")))
  /\ length (capitalize (lit "designPatterns")) = length (lit "designPatterns")
  /\ head (capitalize (lit "designPatterns")) = ascii_upper <$> head (lit "designPatterns")
  /\ tail (capitalize (lit "designPatterns")) = ascii_lower <$> tail (lit "designPatterns")
  /\ (Forall (fun c => ascii_lower c = c) (tail (lit "designPatterns")) ->
      capitalize (lit "designPatterns") = first_upper_rest_kept (lit "designPatterns")).
Proof.
  apply (topic_bullet_capitalized _ _ [lit "Factory.java"]).
  - by vm_compute.
  - apply (bool_decide_unpack _). by vm_compute.
Defined.

(** C2 as stated fails: for the directory designPatterns the bullet reads
    Designpatterns, the P is lower-cased. *)
Lemma topic_bullet_counterexample :
  (lit "- **Designpatterns**"
     ∈ section_lines (one_file (lit "designPatterns") (lit "Factory.java")))
  /\ ((lit "- **" ++ first_upper_rest_kept (lit "designPatterns") ++ lit "**")
        ∉ section_lines (one_file (lit "designPatterns") (lit "Factory.java")))
  /\ first_upper_rest_kept (lit "designPatterns") = lit "DesignPatterns".
Proof.
  split; [|split].
  - apply elem_of_compute. by vm_compute.
  - apply not_elem_of_list_compute. by vm_compute.
  - by vm_compute.
Qed.

Lemma drop_last_suffix (n : nat) (name suffix : list N) :
  length suffix = n -> drop_last n (name ++ suffix) = name.
Proof.
  intros <-. unfold drop_last. rewrite length_app.
  replace (length name + length suffix - length suffix) with (length name) by lia.
  by rewrite take_app_length.
Qed.

Lemma replace_char_no_old old new s : old <> new -> old ∉ replace_char old new s.
Proof.
  intros Hne. induction s as [|c s IH]; [apply not_elem_of_nil|].
  simpl. apply not_elem_of_cons. split; [|done].
  destruct (N.eqb_spec c old); congruence.
Qed.

Lemma replace_char_id old new s : old ∉ s -> replace_char old new s = s.
Proof.
  induction s as [|c s IH]; [done|]. intros [Hc Hs]%not_elem_of_cons.
  simpl. rewrite IH by done. destruct (N.eqb_spec c old); congruence.
Qed.

Lemma endswith_app (a k : list N) (c : N) :
  k <> [] -> endswith (a ++ k) [c] = endswith k [c].
Proof.
  intros Hk. unfold endswith. rewrite length_app. cbn [length].
  destruct k as [|x k]; [done|]. cbn [length].
  replace (length a + S (length k) - 1) with (length a + length k) by lia.
  replace (S (length k) - 1) with (length k) by lia.
  by rewrite drop_app_add'.
Qed.

(** os.path.join of the scan root, a relative directory path and a file name. *)
Lemma os_path_join_relative (k f : list N) :
  k <> [] -> startswith k [SLASH] = false -> endswith k [SLASH] = false ->
  startswith f [SLASH] = false ->
  os_path_join BASE_DIR [k; f] = str_join [SLASH] [BASE_DIR; k; f].
Proof.
  intros Hk Hks Hke Hfs. unfold os_path_join. cbn [fold_left str_join].
  assert (join_step BASE_DIR k = BASE_DIR ++ [SLASH] ++ k) as ->.
  { unfold join_step. by rewrite Hks. }
  unfold join_step. rewrite Hfs.
  rewrite (app_assoc BASE_DIR), endswith_app, Hke by done.
  rewrite bool_decide_eq_false_2; [by rewrite <- !app_assoc|].
  by destruct k.
Qed.

(** C8 (amended): the bullet of an example file shows the file name without
    its .java suffix and links to the path os.path.join makes of the scan
    root, the topic key and the file name, with every backslash in it
    replaced by a forward slash.  The link holds no backslash; it is the
    forward-slash join of the three parts when the key is a relative path,
    the file name does not start with a slash and neither holds a
    backslash. *)
Theorem example_bullet (topics : gmap (list N) (list (list N)))
  (k : list N) (files : list (list N)) (name : list N) :
  topics !! k = Some files ->
  (name ++ lit ".java") ∈ files ->
  exists target,
    ((lit "  - [" ++ name ++ lit "](" ++ target ++ lit ")") ∈ section_lines topics)
    /\ target = replace_char BACKSLASH SLASH (os_path_join BASE_DIR [k; name ++ lit ".java"])
    /\ (BACKSLASH ∉ target)
    /\ (k <> [] -> startswith k [SLASH] = false -> endswith k [SLASH] = false ->
        startswith name [SLASH] = false ->
        target = replace_char BACKSLASH SLASH
                   (str_join [SLASH] [BASE_DIR; k; name ++ lit ".java"])
        /\ (BACKSLASH ∉ k -> BACKSLASH ∉ name ->
            target = str_join [SLASH] [BASE_DIR; k; name ++ lit ".java"])).
Proof.
  intros Hk Hf. eexists. split; [|split; [reflexivity|split]].
  - eapply elem_of_section_lines; [exact Hk|].
    unfold block_lines. cbn [fst snd]. apply elem_of_app. right.
    apply elem_of_app. left. apply list_elem_of_In, in_map_iff.
    exists (name ++ lit ".java"). split.
    + unfold example_line. by rewrite (drop_last_suffix 5 name (lit ".java")).
    + by apply list_elem_of_In, elem_of_sorted.
  - by apply replace_char_no_old.
  - intros Hne Hks Hke Hns.
    assert (startswith (name ++ lit ".java") [SLASH] = false) as Hfs.
    { destruct name as [|c name]; [done|]. exact Hns. }
    rewrite (os_path_join_relative _ _ Hne Hks Hke Hfs). split; [done|].
    intros Hkb Hnb. apply replace_char_id. cbn [str_join].
    rewrite !not_elem_of_app. repeat split; try done;
      apply not_elem_of_list_compute; by vm_compute.
Qed.

Lemma example_bullet_witness :
  exists target,
    ((lit "  - [" ++ lit "Sort" ++ lit "](" ++ target ++ lit ")")
       ∈ section_lines (one_file (lit "algorithms") (lit "Sort.java")))
    /\ target = replace_char BACKSLASH SLASH
                  (os_path_join BASE_DIR [lit "algorithms"; lit "Sort" ++ lit ".java"])
    /\ (BACKSLASH ∉ target)
    /\ (lit "algorithms" <> [] -> startswith (lit "algorithms") [SLASH] = false ->
        endswith (lit "algorithms") [SLASH] = false ->
        startswith (lit "Sort") [SLASH] = false ->
        target = replace_char BACKSLASH SLASH
                   (str_join [SLASH] [BASE_DIR; lit "algorithms"; lit "Sort" ++ lit ".java"])
        /\ (BACKSLASH ∉ lit "algorithms" -> BACKSLASH ∉ lit "Sort" ->
            target = str_join [SLASH] [BASE_DIR; lit "algorithms"; lit "Sort" ++ lit ".java"])).
Proof.
  apply (example_bullet _ _ [lit "Sort.java"]).
  - by vm_compute.
  - apply elem_of_compute. by vm_compute.
Defined.

(** C8 as stated fails: for a file named a\b.java the link is not the join of
    the scan root, the topic key and the file name, the backslash of the
    name has become a slash. *)
Lemma example_bullet_counterexample :
  (lit "  - [a\b](src/main/java/t/a/b.java)"
     ∈ section_lines (one_file (lit "t") (lit "a\b.java")))
  /\ ((lit "  - [a\b](" ++ str_join [SLASH] [BASE_DIR; lit "t"; lit "a\b.java"] ++ lit ")")
        ∉ section_lines (one_file (lit "t") (lit "a\b.java")))
  /\ str_join [SLASH] [BASE_DIR; lit "t"; lit "a\b.java"] = lit "src/main/java/t/a\b.java".
Proof.
  split; [|split].
  - apply elem_of_compute. by vm_compute.
  - apply not_elem_of_list_compute. by vm_compute.
  - by vm_compute.
Qed.

(** ** posixpath on the roots of os.walk *)

Lemma elem_of_take_drop {A} (x : A) (l : list A) n :
  x ∈ take n l \/ x ∈ drop n l -> x ∈ l.
Proof. rewrite <- (take_drop n l) at 3. rewrite elem_of_app. tauto. Qed.

Lemma startswith_not_in (n : list N) (c : N) : c ∉ n -> startswith n [c] = false.
Proof.
  intros Hc. unfold startswith. apply bool_decide_eq_false_2. intros Heq.
  destruct Hc. apply (elem_of_take_drop c n 1). left. cbn [length] in Heq.
  rewrite Heq. by left.
Qed.

Lemma endswith_not_in (n : list N) (c : N) : c ∉ n -> endswith n [c] = false.
Proof.
  intros Hc. unfold endswith. apply bool_decide_eq_false_2. intros Heq.
  destruct Hc. apply (elem_of_take_drop c n (length n - length [c])). right.
  rewrite Heq. by left.
Qed.

Lemma join_step_name (path n : list N) :
  path <> [] -> endswith path [SLASH] = false -> SLASH ∉ n ->
  join_step path n = path ++ [SLASH] ++ n.
Proof.
  intros Hpath Hend Hn. unfold join_step.
  rewrite (startswith_not_in _ _ Hn), Hend.
  by rewrite bool_decide_eq_false_2.
Qed.

Lemma below_cons m p : below (m :: p) = SLASH :: m ++ below p.
Proof. done. Qed.

Lemma below_snoc p n : below (p ++ [n]) = below p ++ SLASH :: n.
Proof. unfold below. rewrite flat_map_app. simpl. by rewrite app_nil_r. Qed.

(** os.path.join of a path and names is the path with a slash before each name. *)
Lemma os_path_join_names (base : list N) (p : list (list N)) :
  base <> [] -> endswith base [SLASH] = false -> Forall valid_name p ->
  os_path_join base p = base ++ below p.
Proof.
  intros Hbase Hend. induction p as [|n p IH] using rev_ind; intros Hp.
  - by rewrite app_nil_r.
  - rewrite Forall_app, Forall_singleton in Hp. destruct Hp as [Hp Hn].
    destruct Hn as (Hne & Hslash & _).
    unfold os_path_join in *. rewrite fold_left_app. cbn [fold_left].
    rewrite IH by done. rewrite below_snoc, join_step_name; try done.
    + by rewrite <- app_assoc.
    + by destruct base.
    + destruct p as [|m p _] using rev_ind; [by rewrite app_nil_r|].
      rewrite Forall_app, Forall_singleton in Hp. destruct Hp as [_ Hm].
      destruct Hm as (Hme & Hmslash & _).
      rewrite below_snoc.
      replace (base ++ below p ++ SLASH :: m) with ((base ++ below p ++ [SLASH]) ++ m)
        by (by rewrite <- !app_assoc).
      rewrite endswith_app by done. by apply endswith_not_in.
Qed.

Lemma str_join_below (a : list N) (q : list (list N)) :
  str_join [SLASH] (a :: q) = a ++ below q.
Proof.
  revert a. induction q as [|b q IH]; intros a; [by rewrite app_nil_r|].
  change (str_join [SLASH] (a :: b :: q)) with (a ++ [SLASH] ++ str_join [SLASH] (b :: q)).
  by rewrite IH.
Qed.

Lemma split_on_app_sep sep (a b : list N) :
  split_on sep (a ++ sep :: b) = split_on sep a ++ split_on sep b.
Proof.
  induction a as [|c a IH]; simpl.
  - by rewrite N.eqb_refl.
  - destruct (N.eqb_spec c sep); [by rewrite IH|].
    rewrite IH. destruct (split_on sep a) as [|x xs] eqn:E; [|done].
    by destruct a; simpl in E; [|destruct (_ =? _)%N, (split_on sep a)].
Qed.

Lemma split_on_no_sep sep (n : list N) : sep ∉ n -> split_on sep n = [n].
Proof.
  induction n as [|c n IH]; [done|]. intros [Hc Hn]%not_elem_of_cons. simpl.
  destruct (N.eqb_spec c sep); [congruence|]. by rewrite IH.
Qed.

Lemma split_on_parts sep (s : list N) : Forall (fun part => sep ∉ part) (split_on sep s).
Proof.
  induction s as [|c s IH]; simpl.
  - constructor; [apply not_elem_of_nil | constructor].
  - destruct (N.eqb_spec c sep) as [->|Hne].
    + constructor; [apply not_elem_of_nil | done].
    + destruct (split_on sep s) as [|part parts].
      * constructor; [|constructor]. apply not_elem_of_cons. split; [congruence|].
        apply not_elem_of_nil.
      * apply Forall_cons in IH as [Hpart Hparts]. constructor; [|done].
        apply not_elem_of_cons. split; [congruence | done].
Qed.

Lemma split_on_names (n : list N) (p : list (list N)) :
  Forall (fun m => SLASH ∉ m) (n :: p) -> split_on SLASH (n ++ below p) = n :: p.
Proof.
  revert n. induction p as [|m p IH]; intros n Hall.
  - apply Forall_cons in Hall as [Hn _]. rewrite app_nil_r. by apply split_on_no_sep.
  - apply Forall_cons in Hall as [Hn Hall].
    rewrite below_cons, split_on_app_sep, split_on_no_sep by done.
    cbn [app]. f_equal. by apply IH.
Qed.

Lemma split_on_join (comps : list (list N)) :
  comps <> [] -> Forall (fun m => SLASH ∉ m) comps ->
  split_on SLASH (str_join [SLASH] comps) = comps.
Proof.
  destruct comps as [|a q]; [done|]. intros _ Hall.
  rewrite str_join_below. by apply split_on_names.
Qed.

Lemma valid_name_no_slash p : Forall valid_name p -> Forall (fun m => SLASH ∉ m) p.
Proof. intros H. eapply Forall_impl; [exact H|]. by intros n (_ & Hn & _). Qed.

(** The relative path tells the names apart. *)
Lemma rel_path_inj p q :
  Forall valid_name p -> Forall valid_name q -> rel_path p = rel_path q -> p = q.
Proof.
  intros Hp Hq Heq.
  assert (forall r, Forall valid_name r -> r <> [] -> lit "." <> str_join [SLASH] r) as Hdot.
  { intros r Hr Hne Hd. apply (f_equal (split_on SLASH)) in Hd.
    rewrite split_on_join in Hd by auto using valid_name_no_slash.
    change (split_on SLASH (lit ".")) with [lit "."] in Hd.
    rewrite <- Hd in Hr. rewrite Forall_singleton in Hr. by destruct Hr as (_ & _ & ? & _). }
  destruct p as [|a p], q as [|b q]; [done | | |].
  - destruct (Hdot (b :: q)); done.
  - destruct (Hdot (a :: p)); done.
  - cbn [rel_path] in Heq. apply (f_equal (split_on SLASH)) in Heq.
    by rewrite !split_on_join in Heq by auto using valid_name_no_slash.
Qed.

Lemma base_dir_join (x : list N) (cwd : list N) :
  join_step cwd (BASE_DIR ++ x) = join_step cwd BASE_DIR ++ x.
Proof.
  unfold join_step.
  assert (startswith (BASE_DIR ++ x) [SLASH] = false) as -> by done.
  assert (startswith BASE_DIR [SLASH] = false) as -> by done.
  destruct (bool_decide (cwd = []) || endswith cwd [SLASH]); by rewrite <- !app_assoc.
Qed.

Lemma startswith_app_long (a x pre : list N) :
  length pre <= length a -> startswith (a ++ x) pre = startswith a pre.
Proof. intros Hlen. unfold startswith. by rewrite take_app_le. Qed.

Lemma initial_slashes_app (a x : list N) :
  3 <= length a -> initial_slashes (a ++ x) = initial_slashes a.
Proof.
  intros Hlen. unfold initial_slashes.
  by rewrite !startswith_app_long by (cbn [length]; lia).
Qed.

Lemma join_step_cwd_base (cwd : list N) :
  isabs cwd = true ->
  3 <= length (join_step cwd BASE_DIR)
  /\ 0 < initial_slashes (join_step cwd BASE_DIR).
Proof.
  intros Habs. destruct cwd as [|c cwd]; [done|].
  assert (c = SLASH) as ->.
  { unfold isabs, startswith in Habs. apply bool_decide_eq_true in Habs.
    by injection Habs. }
  unfold join_step.
  assert (startswith BASE_DIR [SLASH] = false) as -> by done.
  destruct (bool_decide (SLASH :: cwd = []) || endswith (SLASH :: cwd) [SLASH]).
  - split.
    + rewrite length_app. assert (length BASE_DIR = 13) as -> by done. lia.
    + unfold initial_slashes.
      assert (startswith ((SLASH :: cwd) ++ BASE_DIR) [SLASH] = true) as -> by done.
      destruct (_ && _); lia.
  - split.
    + rewrite !length_app. assert (length BASE_DIR = 13) as -> by done. lia.
    + unfold initial_slashes.
      assert (startswith ((SLASH :: cwd) ++ [SLASH] ++ BASE_DIR) [SLASH] = true) as -> by done.
      destruct (_ && _); lia.
Qed.

Lemma split_on_below (j : list N) (p : list (list N)) :
  Forall (fun m => SLASH ∉ m) p ->
  split_on SLASH (j ++ below p) = split_on SLASH j ++ p.
Proof.
  destruct p as [|n p]; intros Hp.
  - by rewrite !app_nil_r.
  - by rewrite below_cons, split_on_app_sep, split_on_names.
Qed.

Lemma norm_step_name i acc n : valid_name n -> norm_step i acc n = acc ++ [n].
Proof.
  intros (Hne & _ & Hdot & Hdotdot). unfold norm_step.
  rewrite !bool_decide_eq_false_2 by done. done.
Qed.

Lemma norm_names i (p : list (list N)) : forall acc,
  Forall valid_name p -> fold_left (norm_step i) p acc = acc ++ p.
Proof.
  induction p as [|n p IH]; intros acc Hp; [by rewrite app_nil_r|].
  apply Forall_cons in Hp as [Hn Hp]. cbn [fold_left].
  by rewrite norm_step_name, IH, <- app_assoc.
Qed.

Lemma Forall_removelast {A} (P : A -> Prop) (l : list A) :
  Forall P l -> Forall P (removelast l).
Proof.
  induction 1 as [|x l Hx Hl IH]; [constructor|].
  simpl. destruct l; [constructor | by constructor].
Qed.

Lemma norm_step_proper i acc c :
  Forall proper_component acc -> SLASH ∉ c -> Forall proper_component (norm_step i acc c).
Proof.
  intros Hacc Hc. unfold norm_step.
  destruct (decide (c = [])) as [->|Hne]; [done|].
  rewrite (bool_decide_eq_false_2 (c = [])) by done. cbn [orb].
  destruct (bool_decide (c = lit ".")); [done|].
  destruct (_ || _).
  - apply Forall_app. split; [done|]. by apply Forall_singleton.
  - by apply Forall_removelast.
Qed.

Lemma norm_proper i (comps : list (list N)) : forall acc,
  Forall proper_component acc -> Forall (fun c => SLASH ∉ c) comps ->
  Forall proper_component (fold_left (norm_step i) comps acc).
Proof.
  induction comps as [|c comps IH]; intros acc Hacc Hcomps; [done|].
  apply Forall_cons in Hcomps as [Hc Hcomps]. cbn [fold_left].
  apply IH; [|done]. by apply norm_step_proper.
Qed.

Lemma filter_nonempty_proper (comps : list (list N)) :
  Forall proper_component comps -> List.filter nonempty comps = comps.
Proof.
  induction 1 as [|c comps [Hc _] _ IH]; [done|]. simpl.
  unfold nonempty at 1. rewrite bool_decide_eq_false_2 by done. simpl. by rewrite IH.
Qed.

(** abspath(...).split(sep) without the empty parts gives the components back. *)
Lemma split_normalized (i : nat) (comps : list (list N)) :
  Forall proper_component comps ->
  List.filter nonempty (split_on SLASH (repeat SLASH i ++ str_join [SLASH] comps)) = comps.
Proof.
  intros Hcomps. induction i as [|i IH].
  - cbn [repeat app]. destruct comps as [|c comps]; [done|].
    rewrite split_on_join; [by apply filter_nonempty_proper | done |].
    eapply Forall_impl; [exact Hcomps|]. by intros ? [_ ?].
  - cbn [repeat app split_on]. rewrite N.eqb_refl. cbn [List.filter]. exact IH.
Qed.

Lemma commonprefix_app (a p : list (list N)) : commonprefix a (a ++ p) = a.
Proof.
  induction a as [|x a IH]; [by destruct p|]. simpl.
  by rewrite bool_decide_eq_true_2, IH.
Qed.

(** abspath of a root of os.walk: the components of the absolute scan root,
    then the names. *)
Lemma abspath_root (cwd : list N) :
  isabs cwd = true ->
  exists a, Forall proper_component a /\ forall p, Forall valid_name p ->
    List.filter nonempty (split_on SLASH (abspath cwd (os_path_join BASE_DIR p))) = a ++ p.
Proof.
  intros Habs. destruct (join_step_cwd_base cwd Habs) as [Hlen Hi].
  exists (fold_left (norm_step (initial_slashes (join_step cwd BASE_DIR)))
            (split_on SLASH (join_step cwd BASE_DIR)) []).
  split; [apply norm_proper; [constructor | apply split_on_parts]|].
  intros p Hp. rewrite os_path_join_names by done.
  unfold abspath. assert (isabs (BASE_DIR ++ below p) = false) as -> by done.
  unfold os_path_join. cbn [fold_left]. rewrite base_dir_join.
  unfold normpath.
  rewrite bool_decide_eq_false_2
    by (intros Hnil; apply (f_equal length) in Hnil; rewrite length_app in Hnil;
        simpl in Hnil; lia).
  rewrite initial_slashes_app by done.
  rewrite split_on_below by (by apply valid_name_no_slash).
  rewrite fold_left_app, norm_names by done.
  destruct (initial_slashes (join_step cwd BASE_DIR)) as [|i] eqn:Ei; [lia|].
  rewrite bool_decide_eq_false_2 by done.
  apply split_normalized. apply Forall_app. split.
  - apply norm_proper; [constructor | apply split_on_parts].
  - eapply Forall_impl; [exact Hp|]. by intros n (? & ? & _).
Qed.

(** The key of collect_examples: the relative path of a directory below the
    scan root is made of the names that lead to it. *)
Lemma relpath_root (cwd : list N) (p : list (list N)) :
  isabs cwd = true -> Forall valid_name p ->
  os_path_relpath cwd (os_path_join BASE_DIR p) BASE_DIR = rel_path p.
Proof.
  intros Habs Hp. destruct (abspath_root cwd Habs) as (a & Ha & Hsplit).
  unfold os_path_relpath.
  pose proof (Hsplit [] (List.Forall_nil _)) as Hstart.
  change (os_path_join BASE_DIR []) with BASE_DIR in Hstart.
  rewrite app_nil_r in Hstart. rewrite Hstart, (Hsplit p Hp).
  rewrite commonprefix_app, Nat.sub_diag, drop_app_length. cbn [repeat app].
  destruct p as [|n p]; [done|].
  apply Forall_cons in Hp as [(Hn & Hslash & _) Hp].
  rewrite os_path_join_names; try done.
  - cbn [rel_path]. by rewrite str_join_below.
  - by apply endswith_not_in.
Qed.

(** ** collect_examples *)

Lemma add_files_app l1 l2 o : add_files l2 (add_files l1 o) = add_files (l1 ++ l2) o.
Proof.
  destruct l1 as [|x l1]; [done|]. destruct l2 as [|y l2].
  - by rewrite app_nil_r.
  - simpl. by rewrite <- app_assoc.
Qed.

Lemma collect_files_lookup topic files topics k :
  collect_files topic files topics !! k
  = if decide (k = topic) then add_files (java_files files) (topics !! k) else topics !! k.
Proof.
  unfold collect_files. revert topics.
  induction files as [|f files IH]; intros topics; [by destruct (decide _)|].
  cbn [fold_left]. rewrite IH. unfold java_files. cbn [List.filter].
  destruct (endswith f (lit ".java")); [|done].
  destruct (decide (k = topic)) as [->|Hne].
  - unfold setdefault_append. rewrite lookup_insert_eq.
    change (Some (default [] (topics !! topic) ++ [f]))
      with (add_files [f] (topics !! topic)).
    by rewrite add_files_app.
  - unfold setdefault_append. by rewrite lookup_insert_ne.
Qed.

Lemma collect_examples_fold cwd scan_root :
  collect_examples cwd scan_root
  = fold_left (fun topics entry =>
                 collect_files (os_path_relpath cwd entry.1.1 BASE_DIR) entry.2 topics)
              (walk_base scan_root) ∅.
Proof.
  unfold collect_examples. generalize (∅ : gmap (list N) (list (list N))).
  induction (walk_base scan_root) as [|[[root dirs] files] entries IH]; intros m; [done|].
  cbn [fold_left]. by rewrite IH.
Qed.

Lemma collect_entries_lookup cwd (entries : list (list N * list (list N) * list (list N))) k :
  forall topics,
  fold_left (fun topics entry =>
               collect_files (os_path_relpath cwd entry.1.1 BASE_DIR) entry.2 topics)
            entries topics !! k
  = add_files
      (flat_map (fun entry =>
                   if decide (os_path_relpath cwd entry.1.1 BASE_DIR = k)
                   then java_files entry.2 else []) entries)
      (topics !! k).
Proof.
  induction entries as [|entry entries IH]; intros topics; [done|].
  cbn [fold_left flat_map]. rewrite IH, collect_files_lookup, <- add_files_app.
  destruct (decide (k = _)) as [->|Hne].
  - by rewrite decide_True.
  - by rewrite decide_False.
Qed.

Lemma os_path_join_snoc base p n :
  os_path_join (os_path_join base p) [n] = os_path_join base (p ++ [n]).
Proof. unfold os_path_join. by rewrite fold_left_app. Qed.

(** os.walk visits the directories of the tree, each under the path that
    os.path.join makes of the names that lead to it. *)
Lemma os_walk_dirs_of (d : dir) : forall path,
  map (fun entry => (entry.1.1, entry.2)) (os_walk (os_path_join BASE_DIR path) d)
  = map (fun item => (os_path_join BASE_DIR item.1, item.2)) (dirs_of path d).
Proof.
  induction d as [files subdirs IH] using dir_rect'. intros path.
  cbn [os_walk dirs_of map]. f_equal.
  induction IH as [|[name sub] subdirs Hsub _ IHsubdirs]; [done|].
  cbn [flat_map]. rewrite !map_app, IHsubdirs. f_equal.
  rewrite os_path_join_snoc. apply Hsub.
Qed.

Lemma dirs_of_prefix (d : dir) : forall path p fs,
  (p, fs) ∈ dirs_of path d -> path `prefix_of` p.
Proof.
  induction d as [files subdirs IH] using dir_rect'. intros path p fs.
  cbn [dirs_of]. intros [[= -> ->]|Hin]%elem_of_cons; [done|].
  apply list_elem_of_In, in_flat_map in Hin as ([name sub] & Hentry & Hin).
  apply list_elem_of_In in Hentry, Hin.
  rewrite Forall_forall in IH. apply (IH _ Hentry) in Hin.
  etrans; [|exact Hin]. by apply prefix_app_r.
Qed.

Lemma dirs_of_valid (d : dir) : forall path p fs,
  wf_dir d -> Forall valid_name path -> (p, fs) ∈ dirs_of path d -> Forall valid_name p.
Proof.
  induction d as [files subdirs IH] using dir_rect'. intros path p fs Hwf Hpath.
  inversion Hwf as [? ? _ _ Hnames Hsubs]; subst.
  cbn [dirs_of]. intros [[= -> ->]|Hin]%elem_of_cons; [done|].
  apply list_elem_of_In, in_flat_map in Hin as ([name sub] & Hentry & Hin).
  apply list_elem_of_In in Hentry, Hin.
  rewrite Forall_forall in IH. rewrite Forall_forall in Hsubs.
  rewrite Forall_forall in Hnames.
  apply (IH _ Hentry _ _ _ (Hsubs _ Hentry)) in Hin; [done|].
  apply Forall_app. split; [done|]. apply Forall_singleton, Hnames.
  apply list_elem_of_In, in_map_iff. exists (name, sub). split; [done|].
  by apply list_elem_of_In.
Qed.

Lemma prefix_snoc_inj {A} (path : list A) (n m : A) (p : list A) :
  (path ++ [n]) `prefix_of` p -> (path ++ [m]) `prefix_of` p -> n = m.
Proof.
  intros [x ->] [y Heq]. rewrite <- !app_assoc in Heq.
  apply app_inv_head in Heq. by injection Heq.
Qed.

Lemma dirs_of_NoDup (d : dir) : forall path,
  wf_dir d -> NoDup (map fst (dirs_of path d)).
Proof.
  induction d as [files subdirs IH] using dir_rect'. intros path Hwf.
  inversion Hwf as [? ? _ Hnd _ Hsubs]; subst. clear Hwf.
  cbn [dirs_of map]. apply NoDup_cons. split.
  - intros Hin. apply list_elem_of_In, in_map_iff in Hin as ([p fs] & Hp & Hin).
    cbn [fst] in Hp. subst p.
    apply in_flat_map in Hin as ([name sub] & _ & Hin).
    apply list_elem_of_In, dirs_of_prefix in Hin. destruct Hin as [x Hx].
    apply (f_equal length) in Hx. rewrite !length_app in Hx. simpl in Hx. lia.
  - induction subdirs as [|[name sub] subdirs IHsubdirs]; [constructor|].
    apply Forall_cons in IH as [Hsub IH]. apply Forall_cons in Hsubs as [Hwf Hsubs].
    cbn [map] in Hnd. apply NoDup_cons in Hnd as [Hname Hnd].
    cbn [flat_map]. rewrite map_app. apply NoDup_app. split; [by apply Hsub|].
    split; [|by apply IHsubdirs].
    intros p Hp1 Hp2.
    apply list_elem_of_In, in_map_iff in Hp1 as ([p1 fs1] & <- & Hp1).
    apply list_elem_of_In, in_map_iff in Hp2 as ([p2 fs2] & Heq & Hp2).
    cbn [fst] in Heq. subst p2.
    apply list_elem_of_In, dirs_of_prefix in Hp1.
    apply in_flat_map in Hp2 as ([name' sub'] & Hentry & Hp2).
    apply list_elem_of_In, dirs_of_prefix in Hp2.
    destruct Hname. rewrite (prefix_snoc_inj _ _ _ _ Hp1 Hp2).
    apply list_elem_of_In, in_map_iff. by exists (name', sub').
Qed.

Lemma flat_map_ext_in {A B} (f g : A -> list B) (l : list A) :
  (forall x, x ∈ l -> f x = g x) -> flat_map f l = flat_map g l.
Proof.
  induction l as [|x l IH]; intros H; [done|]. cbn [flat_map].
  rewrite (H x) by by left. rewrite IH; [done|]. intros y Hy. apply H. by right.
Qed.

(** Among directories with distinct keys one key selects one directory. *)
Lemma flat_map_select {K V B} `{EqDecision K} (l : list (K * V)) (g : V -> list B)
  (k : K) (v : V) :
  NoDup (map fst l) -> (k, v) ∈ l ->
  flat_map (fun item => if decide (item.1 = k) then g item.2 else []) l = g v.
Proof.
  induction l as [|[k' v'] l IH]; intros Hnd Hin; [by apply not_elem_of_nil in Hin|].
  cbn [map fst] in Hnd. apply NoDup_cons in Hnd as [Hk' Hnd].
  cbn [flat_map fst snd]. apply elem_of_cons in Hin as [[= <- <-]|Hin].
  - rewrite decide_True by done.
    rewrite (flat_map_ext_in _ (fun _ => [])).
    + clear. induction l; [by rewrite app_nil_r | done].
    + intros [k2 v2] Hin2. cbn [fst snd]. rewrite decide_False; [done|].
      intros ->. destruct Hk'. apply list_elem_of_In, in_map_iff.
      exists (k, v2). split; [done | by apply list_elem_of_In].
  - rewrite decide_False; [by apply IH|].
    intros ->. destruct Hk'. apply list_elem_of_In, in_map_iff.
    exists (k, v). split; [done | by apply list_elem_of_In].
Qed.

Lemma flat_map_nonempty {A B} (f : A -> list B) (l : list A) :
  flat_map f l <> [] -> exists x, x ∈ l /\ f x <> [].
Proof.
  induction l as [|x l IH]; [done|]. cbn [flat_map].
  destruct (f x) as [|y ys] eqn:E.
  - intros H. destruct (IH H) as (z & Hz & Hfz). exists z. split; [by right | done].
  - intros _. exists x. split; [by left | by rewrite E].
Qed.

Lemma flat_map_map {A B C} (f : B -> list C) (g : A -> B) (l : list A) :
  flat_map f (map g l) = flat_map (fun x => f (g x)) l.
Proof. induction l as [|x l IH]; [done|]. simpl. by rewrite IH. Qed.

Lemma NoDup_fst_functional {K V} (l : list (K * V)) k v v' :
  NoDup (map fst l) -> (k, v) ∈ l -> (k, v') ∈ l -> v = v'.
Proof.
  induction l as [|[k0 v0] l IH]; intros Hnd H1 H2; [by apply not_elem_of_nil in H1|].
  cbn [map fst] in Hnd. apply NoDup_cons in Hnd as [Hk0 Hnd].
  assert (forall w, (k0, w) ∈ l -> False) as Hfresh.
  { intros w Hw. destruct Hk0. apply list_elem_of_In, in_map_iff.
    exists (k0, w). split; [done | by apply list_elem_of_In]. }
  apply elem_of_cons in H1 as [H1|H1]; apply elem_of_cons in H2 as [H2|H2];
    simplify_eq; try done.
  - by destruct (Hfresh v').
  - by destruct (Hfresh v).
  - by apply IH.
Qed.

Lemma elem_of_keyed_dirs d k fs :
  (k, fs) ∈ keyed_dirs d <-> exists p, (p, fs) ∈ dirs_of [] d /\ k = rel_path p.
Proof.
  unfold keyed_dirs. rewrite list_elem_of_In, in_map_iff. split.
  - intros ([p fs'] & [= <- <-] & Hin). exists p. split; [by apply list_elem_of_In|done].
  - intros (p & Hin & ->). exists (p, fs). split; [done | by apply list_elem_of_In].
Qed.

Lemma keyed_dirs_NoDup d : wf_dir d -> NoDup (map fst (keyed_dirs d)).
Proof.
  intros Hwf. unfold keyed_dirs. rewrite map_map. cbn [fst].
  rewrite <- (map_map fst rel_path).
  apply (NoDup_fmap_2_strong rel_path); [|by apply dirs_of_NoDup].
  intros p q Hp Hq.
  apply list_elem_of_In, in_map_iff in Hp as ([p' fs] & <- & Hp).
  apply list_elem_of_In, in_map_iff in Hq as ([q' fs'] & <- & Hq).
  apply list_elem_of_In in Hp, Hq.
  apply rel_path_inj; eapply dirs_of_valid; try done; by constructor.
Qed.

Lemma dirs_of_files_NoDup (d : dir) : forall path p fs,
  wf_dir d -> (p, fs) ∈ dirs_of path d -> NoDup fs.
Proof.
  induction d as [files subdirs IH] using dir_rect'. intros path p fs Hwf.
  inversion Hwf as [? ? Hfiles _ _ Hsubs]; subst.
  cbn [dirs_of]. intros [[= -> ->]|Hin]%elem_of_cons; [done|].
  apply list_elem_of_In, in_flat_map in Hin as ([name sub] & Hentry & Hin).
  apply list_elem_of_In in Hentry, Hin.
  rewrite Forall_forall in IH. rewrite Forall_forall in Hsubs.
  exact (IH _ Hentry _ _ _ (Hsubs _ Hentry) Hin).
Qed.

(** The mapping of collect_examples, key by key. *)
Lemma collect_examples_lookup cwd d k :
  isabs cwd = true -> wf_dir d ->
  collect_examples cwd (Some d) !! k
  = add_files
      (flat_map (fun item => if decide (item.1 = k) then java_files item.2 else [])
         (keyed_dirs d))
      None.
Proof.
  intros Habs Hwf. rewrite collect_examples_fold, collect_entries_lookup, lookup_empty.
  f_equal. cbn [walk_base].
  trans (flat_map
           (fun item : list N * list (list N) =>
              if decide (os_path_relpath cwd item.1 BASE_DIR = k)
              then java_files item.2 else [])
           (map (fun entry : list N * list (list N) * list (list N) => (entry.1.1, entry.2))
              (os_walk BASE_DIR d))).
  { symmetry. apply flat_map_map. }
  pose proof (os_walk_dirs_of d []) as Hwalk.
  change (os_path_join BASE_DIR []) with BASE_DIR in Hwalk.
  rewrite Hwalk. unfold keyed_dirs. rewrite !flat_map_map.
  apply flat_map_ext_in. intros [p fs] Hin. cbn [fst snd].
  rewrite relpath_root; [done | done |].
  eapply dirs_of_valid; [exact Hwf | constructor | exact Hin].
Qed.

Lemma collect_examples_Some cwd d k l :
  isabs cwd = true -> wf_dir d ->
  collect_examples cwd (Some d) !! k = Some l ->
  exists p fs, (p, fs) ∈ dirs_of [] d /\ k = rel_path p /\ l = java_files fs /\ l <> [].
Proof.
  intros Habs Hwf. rewrite collect_examples_lookup by done.
  destruct (flat_map _ (keyed_dirs d)) as [|x xs] eqn:E; [done|].
  assert (flat_map (fun item : list N * list (list N) =>
                      if decide (item.1 = k) then java_files item.2 else [])
                   (keyed_dirs d) <> []) as Hne by (by rewrite E).
  apply flat_map_nonempty in Hne as ([k' fs'] & Hin & Hne).
  cbn [fst snd] in Hne. destruct (decide (k' = k)) as [->|]; [|done].
  rewrite (flat_map_select _ java_files k fs') in E;
    [|by apply keyed_dirs_NoDup|done].
  intros [= <-]. apply elem_of_keyed_dirs in Hin as (p' & Hdir' & ->).
  exists p', fs'. by rewrite E.
Qed.

(** C6: in a directory tree as a file system holds it, scanned from an
    absolute working directory, every file with the .java suffix is listed
    once, under the key that is the relative path of its directory from the
    scan root: the list under that key holds the .java files of that
    directory and of no other, and every key of the mapping is the relative
    path of a directory and lists its .java files. *)
Theorem collect_examples_partition (cwd : list N) (d : dir)
  (p : list (list N)) (fs : list (list N)) (f : list N) :
  isabs cwd = true ->
  wf_dir d ->
  (p, fs) ∈ dirs_of [] d ->
  f ∈ fs ->
  endswith f (lit ".java") = true ->
  (exists names, (os_path_join BASE_DIR p, names, fs) ∈ os_walk BASE_DIR d)
  /\ os_path_relpath cwd (os_path_join BASE_DIR p) BASE_DIR = rel_path p
  /\ collect_examples cwd (Some d) !! rel_path p = Some (java_files fs)
  /\ (f ∈ java_files fs)
  /\ NoDup (java_files fs)
  /\ (forall p' fs', (p', fs') ∈ dirs_of [] d -> rel_path p' = rel_path p ->
        p' = p /\ fs' = fs)
  /\ (forall k l, collect_examples cwd (Some d) !! k = Some l ->
        exists p' fs', (p', fs') ∈ dirs_of [] d /\ k = rel_path p'
                       /\ l = java_files fs' /\ l <> []).
Proof.
  intros Habs Hwf Hdir Hf Hjava.
  assert (Forall valid_name p) as Hp
    by (eapply dirs_of_valid; [exact Hwf | constructor | exact Hdir]).
  assert (f ∈ java_files fs) as Hfj.
  { apply list_elem_of_In, filter_In. split; [by apply list_elem_of_In | done]. }
  split; [|split; [by apply relpath_root|split; [|split; [done|split; [|split]]]]].
  - assert ((os_path_join BASE_DIR p, fs)
            ∈ map (fun entry : list N * list (list N) * list (list N) => (entry.1.1, entry.2))
                (os_walk (os_path_join BASE_DIR []) d)) as Hin.
    { rewrite os_walk_dirs_of. apply list_elem_of_In, in_map_iff.
      exists (p, fs). split; [done | by apply list_elem_of_In]. }
    apply list_elem_of_In, in_map_iff in Hin as ([[root names] fs'] & [= <- <-] & Hin).
    exists names. by apply list_elem_of_In.
  - rewrite collect_examples_lookup by done.
    rewrite (flat_map_select _ java_files (rel_path p) fs).
    + destruct (java_files fs); [by apply not_elem_of_nil in Hfj | done].
    + by apply keyed_dirs_NoDup.
    + apply elem_of_keyed_dirs. by exists p.
  - unfold java_files. apply NoDup_ListNoDup, List.NoDup_filter, NoDup_ListNoDup.
    by eapply dirs_of_files_NoDup.
  - intros p' fs' Hdir' Heq.
    assert (p' = p) as ->.
    { apply rel_path_inj; [|done|done].
      eapply dirs_of_valid; [exact Hwf | constructor | exact Hdir']. }
    split; [done|].
    exact (NoDup_fst_functional _ _ _ _ (dirs_of_NoDup d [] Hwf) Hdir' Hdir).
  - intros k l. by apply collect_examples_Some.
Qed.

Lemma example_tree_wf : wf_dir example_tree.
Proof.
  apply wf_Dir.
  - apply (bool_decide_unpack _). by vm_compute.
  - apply (bool_decide_unpack _). by vm_compute.
  - apply (bool_decide_unpack _). by vm_compute.
  - repeat apply Forall_cons_2; try apply Forall_nil_2; cbn [snd];
      (apply wf_Dir; [apply (bool_decide_unpack _); by vm_compute | constructor..]).
Qed.

Lemma collect_examples_partition_witness :
  (exists names,
     (os_path_join BASE_DIR [lit "algorithms"], names, [lit "Sort.java"; lit "Search.java"])
       ∈ os_walk BASE_DIR example_tree)
  /\ os_path_relpath (lit "/repo") (os_path_join BASE_DIR [lit "algorithms"]) BASE_DIR
     = rel_path [lit "algorithms"]
  /\ collect_examples (lit "/repo") (Some example_tree) !! rel_path [lit "algorithms"]
     = Some (java_files [lit "Sort.java"; lit "Search.java"])
  /\ (lit "Sort.java" ∈ java_files [lit "Sort.java"; lit "Search.java"])
  /\ NoDup (java_files [lit "Sort.java"; lit "Search.java"])
  /\ (forall p' fs', (p', fs') ∈ dirs_of [] example_tree ->
        rel_path p' = rel_path [lit "algorithms"] ->
        p' = [lit "algorithms"] /\ fs' = [lit "Sort.java"; lit "Search.java"])
  /\ (forall k l, collect_examples (lit "/repo") (Some example_tree) !! k = Some l ->
        exists p' fs', (p', fs') ∈ dirs_of [] example_tree /\ k = rel_path p'
                       /\ l = java_files fs' /\ l <> []).
Proof.
  apply (collect_examples_partition (lit "/repo") example_tree
           [lit "algorithms"] [lit "Sort.java"; lit "Search.java"] (lit "Sort.java")).
  - by vm_compute.
  - exact example_tree_wf.
  - apply elem_of_compute. by vm_compute.
  - apply elem_of_compute. by vm_compute.
  - by vm_compute.
Defined.

Lemma replace_section_all content block :
  BACKSLASH ∉ block ->
  exists out, replace_section content block = Ok out
              /\ all_regions_replaced (fun _ => block ++ [NL] ++ REQUIREMENTS_HEADING)
                   content out.
Proof.
  intros Hbs. rewrite replace_section_literal by done.
  eexists. split; [reflexivity|]. apply sub_all_all_regions.
Qed.

(** C9: a scan root that does not exist gives no topic, the section is the
    heading alone, and main goes on to splice it into the document. *)
Theorem missing_scan_root (cwd : list N) :
  walk_base None = []
  /\ collect_examples cwd None = ∅
  /\ generate_section (collect_examples cwd None) = TOPICS_HEADING ++ [NL]
  /\ forall content : list N,
       exists out,
         main (World cwd None (Some content)) = Ok (World cwd None (Some out))
         /\ all_regions_replaced
              (fun _ => (TOPICS_HEADING ++ [NL]) ++ [NL] ++ REQUIREMENTS_HEADING)
              content out.
Proof.
  split; [done|]. split; [done|]. split; [done|]. intros content.
  assert (BACKSLASH ∉ TOPICS_HEADING ++ [NL]) as Hbs
    by (apply not_elem_of_compute; by vm_compute).
  destruct (replace_section_all content (TOPICS_HEADING ++ [NL]) Hbs) as (out & Hout & Hall).
  exists out. split; [|done].
  by apply (main_Ok (World cwd None (Some content)) content out).
Qed.

(** ** The example scenario *)

(** A directory without a .java file gets no key, and no key lists nothing. *)
Theorem collect_examples_no_empty_topic (cwd : list N) (d : dir) :
  isabs cwd = true ->
  wf_dir d ->
  (forall p fs, (p, fs) ∈ dirs_of [] d -> java_files fs = [] ->
     collect_examples cwd (Some d) !! rel_path p = None)
  /\ (forall k l, collect_examples cwd (Some d) !! k = Some l -> l <> []).
Proof.
  intros Habs Hwf. split.
  - intros p fs Hdir Hnone. rewrite collect_examples_lookup by done.
    rewrite (flat_map_select _ java_files (rel_path p) fs).
    + by rewrite Hnone.
    + by apply keyed_dirs_NoDup.
    + apply elem_of_keyed_dirs. by exists p.
  - intros k l. rewrite collect_examples_lookup by done.
    destruct (flat_map _ (keyed_dirs d)) as [|x xs]; [done|]. by intros [= <-].
Qed.

Lemma collect_examples_no_empty_topic_witness :
  (forall p fs, (p, fs) ∈ dirs_of [] (Dir [lit "notes.txt"] []) ->
     java_files fs = [] ->
     collect_examples (lit "/repo") (Some (Dir [lit "notes.txt"] [])) !! rel_path p = None)
  /\ (forall k l,
        collect_examples (lit "/repo") (Some (Dir [lit "notes.txt"] [])) !! k = Some l ->
        l <> []).
Proof.
  apply collect_examples_no_empty_topic.
  - by vm_compute.
  - apply wf_Dir; [apply (bool_decide_unpack _); by vm_compute | constructor..].
Defined.

(** The tree of the example scenario gives the mapping of the scenario, and
    the mapping is rendered as the block of the scenario. *)
Theorem example_scenario_rendered :
  collect_examples (lit "/repo")
    (Some (Dir [] [(lit "algorithms", Dir [lit "Sort.java"; lit "Search.java"] []);
                   (lit "strings", Dir [lit "Reverse.java"] [])]))
  = example_topics
  /\ generate_section example_topics = example_block.
Proof. split; by vm_compute. Qed.

(** The document of the example scenario after the splice: the block is
    followed by an empty line and the end heading. *)
Theorem example_scenario_spliced :
  replace_section
    (lit "A" ++ [NL] ++ TOPICS_HEADING ++ [NL] ++ lit "OLD" ++ [NL]
     ++ REQUIREMENTS_HEADING ++ [NL] ++ lit "B")
    example_block
  = Ok (lit "A" ++ [NL] ++ example_block ++ [NL] ++ REQUIREMENTS_HEADING ++ [NL] ++ lit "B").
Proof. by vm_compute. Qed.

(** The mappings that collect_examples builds are rendered with the example
    bullets of every topic in strictly increasing order of file name. *)
Theorem collected_examples_strictly_sorted (cwd : list N) (d : dir)
  (k : list N) (fs : list (list N)) :
  isabs cwd = true ->
  wf_dir d ->
  (k, fs) ∈ rendered_topics (collect_examples cwd (Some d)) ->
  StronglySorted str_lt fs.
Proof.
  intros Habs Hwf (files & Hk & ->)%elem_of_rendered_topics.
  apply sorted_files_strict.
  apply collect_examples_Some in Hk as (p & fs & Hdir & _ & -> & _); [|done..].
  unfold java_files. apply NoDup_ListNoDup, List.NoDup_filter, NoDup_ListNoDup.
  by eapply dirs_of_files_NoDup.
Qed.

Lemma collected_examples_strictly_sorted_witness :
  StronglySorted str_lt (sorted str_ltb [lit "Sort.java"; lit "Search.java"]).
Proof.
  apply (collected_examples_strictly_sorted (lit "/repo") example_tree (lit "algorithms")).
  - by vm_compute.
  - exact example_tree_wf.
  - apply elem_of_compute. by vm_compute.
Defined.

(** ** More on collect_examples *)

Lemma collect_examples_contributions cwd scan_root k l :
  collect_examples cwd scan_root !! k = Some l ->
  l = flat_map (fun entry : list N * list (list N) * list (list N) =>
                  if decide (os_path_relpath cwd entry.1.1 BASE_DIR = k)
                  then java_files entry.2 else [])
        (walk_base scan_root).
Proof.
  rewrite collect_examples_fold, collect_entries_lookup, lookup_empty.
  destruct (flat_map _ _); [done|]. by intros [= <-].
Qed.

(** Whatever the tree, a name listed under a key ends with .java and is a file
    of a directory that os.walk visited and that has this key. *)
Theorem collect_examples_only_java (cwd : list N) (scan_root : option dir)
  (k : list N) (l : list (list N)) (f : list N) :
  collect_examples cwd scan_root !! k = Some l ->
  f ∈ l ->
  endswith f (lit ".java") = true
  /\ exists root dirs files,
       (root, dirs, files) ∈ walk_base scan_root
       /\ os_path_relpath cwd root BASE_DIR = k
       /\ f ∈ files.
Proof.
  intros Hk Hf. apply collect_examples_contributions in Hk. subst l.
  apply list_elem_of_In, in_flat_map in Hf as ([[root dirs] files] & Hentry & Hf).
  cbn [fst snd] in Hf. destruct (decide _) as [Hkey|]; [|done].
  apply filter_In in Hf as [Hf Hjava]. split; [done|].
  exists root, dirs, files. split; [by apply list_elem_of_In|]. split; [done|].
  by apply list_elem_of_In.
Qed.

Lemma collect_examples_only_java_witness :
  endswith (lit "Sort.java") (lit ".java") = true
  /\ exists root dirs files,
       (root, dirs, files) ∈ walk_base (Some example_tree)
       /\ os_path_relpath (lit "/repo") root BASE_DIR = lit "algorithms"
       /\ lit "Sort.java" ∈ files.
Proof.
  apply (collect_examples_only_java (lit "/repo") (Some example_tree) (lit "algorithms")
           [lit "Sort.java"; lit "Search.java"]).
  - by vm_compute.
  - apply elem_of_compute. by vm_compute.
Defined.

Lemma listed_count_setdefault_append topic f topics :
  listed_count (setdefault_append topic f topics) = S (listed_count topics).
Proof.
  unfold listed_count, setdefault_append.
  destruct (topics !! topic) as [l|] eqn:E.
  - rewrite <- insert_delete_eq.
    rewrite map_to_list_insert by apply lookup_delete_eq.
    rewrite <- (insert_delete_id topics topic l E) at 2.
    rewrite (map_to_list_insert (delete topic topics)) by apply lookup_delete_eq.
    cbn [sum_list_with snd default]. rewrite length_app. simpl. lia.
  - by rewrite map_to_list_insert.
Qed.

Lemma listed_count_collect_files topic files topics :
  listed_count (collect_files topic files topics)
  = length (java_files files) + listed_count topics.
Proof.
  unfold collect_files, java_files. revert topics.
  induction files as [|f files IH]; intros topics; [done|].
  cbn [fold_left List.filter]. rewrite IH.
  destruct (endswith f (lit ".java")); [|done].
  rewrite listed_count_setdefault_append. simpl. lia.
Qed.

(** No file is lost and none is listed twice: the mapping lists as many
    names as os.walk yields files that end with .java. *)
Theorem collect_examples_count (cwd : list N) (scan_root : option dir) :
  listed_count (collect_examples cwd scan_root) = walked_java_count (walk_base scan_root).
Proof.
  rewrite collect_examples_fold. unfold walked_java_count.
  assert (forall entries topics,
    listed_count
      (fold_left (fun topics (entry : list N * list (list N) * list (list N)) =>
                    collect_files (os_path_relpath cwd entry.1.1 BASE_DIR) entry.2 topics)
         entries topics)
    = sum_list_with
        (fun entry : list N * list (list N) * list (list N) => length (java_files entry.2))
        entries
      + listed_count topics) as Hfold.
  { induction entries as [|entry entries IH]; intros topics; [done|].
    cbn [fold_left sum_list_with]. rewrite IH, listed_count_collect_files. lia. }
  rewrite Hfold. unfold listed_count at 1. rewrite map_to_list_empty. simpl. lia.
Qed.

(** ** More on generate_section *)

Lemma elem_of_block_lines (line : list N) (block : list N * list (list N)) :
  line ∈ block_lines block <->
  line = lit "- **" ++ capitalize block.1 ++ lit "**"
  \/ line = []
  \/ exists f, f ∈ block.2 /\ line = example_line block.1 f.
Proof.
  unfold block_lines. rewrite !elem_of_app, !list_elem_of_singleton.
  rewrite (list_elem_of_In (map _ _) line), in_map_iff. split.
  - intros [-> | [(f & <- & Hf) | ->]]; [by left | | by right; left].
    right; right. exists f. split; [by apply list_elem_of_In | done].
  - intros [-> | [-> | (f & Hf & ->)]]; [by left | by right; right |].
    right; left. exists f. split; [done | by apply list_elem_of_In].
Qed.

(** For keys of ASCII characters, the block holds the heading line and, for
    each key of the mapping, its bullet, one bullet for each file listed
    under it and an empty line: nothing else is rendered. *)
Theorem section_lines_exactly (topics : gmap (list N) (list (list N))) (line : list N) :
  ascii_keys topics ->
  line ∈ section_lines topics <->
  line = TOPICS_HEADING ++ [NL]
  \/ exists k files,
       topics !! k = Some files
       /\ (line = lit "- **" ++ capitalize k ++ lit "**"
           \/ line = []
           \/ exists f, f ∈ files /\ line = example_line k f).
Proof.
  intros _. rewrite section_lines_blocks, elem_of_app, list_elem_of_singleton.
  rewrite (list_elem_of_In (flat_map _ _) line), in_flat_map. split.
  - intros [-> | ([k fs] & Hblock & Hline)]; [by left|]. right.
    apply list_elem_of_In, elem_of_rendered_topics in Hblock as (files & Hk & ->).
    apply list_elem_of_In, elem_of_block_lines in Hline. cbn [fst snd] in Hline.
    exists k, files. split; [done|].
    destruct Hline as [-> | [-> | (f & Hf & ->)]]; [by left | by right; left |].
    right; right. exists f. split; [by apply elem_of_sorted in Hf | done].
  - intros [-> | (k & files & Hk & Hline)]; [by left|]. right.
    exists (k, sorted str_ltb files). split.
    + apply list_elem_of_In, elem_of_rendered_topics. by exists files.
    + apply list_elem_of_In, elem_of_block_lines. cbn [fst snd].
      destruct Hline as [-> | [-> | (f & Hf & ->)]]; [by left | by right; left |].
      right; right. exists f. split; [by apply elem_of_sorted | done].
Qed.

Lemma section_lines_exactly_witness :
  lit "- **T**" ∈ section_lines (one_file (lit "t") (lit "A.java")) <->
  lit "- **T**" = TOPICS_HEADING ++ [NL]
  \/ exists k files,
       one_file (lit "t") (lit "A.java") !! k = Some files
       /\ (lit "- **T**" = lit "- **" ++ capitalize k ++ lit "**"
           \/ lit "- **T**" = []
           \/ exists f, f ∈ files /\ lit "- **T**" = example_line k f).
Proof.
  apply section_lines_exactly.
  apply (bool_decide_unpack _). by vm_compute.
Defined.

Lemma length_flat_map {A B} (f : A -> list B) (l : list A) :
  length (flat_map f l) = sum_list_with (fun x => length (f x)) l.
Proof.
  induction l as [|x l IH]; [done|]. cbn [flat_map sum_list_with].
  by rewrite length_app, IH.
Qed.

(** The block has one line for the heading, two for each key (its bullet and
    the empty line) and one for each listed file name. *)
Theorem section_lines_count (topics : gmap (list N) (list (list N))) :
  length (section_lines topics) = 1 + 2 * size topics + listed_count topics.
Proof.
  unfold section_lines, listed_count. rewrite length_app, length_flat_map.
  unfold sorted at 1. rewrite merge_sort_Permutation.
  rewrite <- length_map_to_list. cbn [length].
  induction (map_to_list topics) as [|[k files] l IH]; [done|].
  cbn [sum_list_with length snd] in *. unfold topic_lines at 1.
  rewrite !length_app, List.length_map. unfold sorted at 1.
  rewrite merge_sort_Permutation. simpl. lia.
Qed.

(** ** The order of the mapping does not show *)

Lemma not_after_str_trans : Transitive (not_after str_ltb).
Proof.
  intros x y z Hxy Hyz. unfold not_after in *.
  destruct (str_ltb z x) eqn:Hzx; [|done].
  destruct (str_ltb x y) eqn:E.
  - by rewrite (str_ltb_trans _ _ _ Hzx E) in Hyz.
  - rewrite (str_ltb_total _ _ E Hxy) in Hzx. by rewrite Hzx in Hyz.
Qed.

Lemma not_after_str_antisym : AntiSymm (=) (not_after str_ltb).
Proof. intros x y Hxy Hyx. by apply str_ltb_total. Qed.

(** sorted gives one list for all the orders of the same file names. *)
Lemma sorted_Permutation (l1 l2 : list (list N)) :
  l1 ≡ₚ l2 -> sorted str_ltb l1 = sorted str_ltb l2.
Proof.
  intros Hperm. unfold sorted.
  apply (@Sorted_unique _ (not_after str_ltb) not_after_str_trans not_after_str_antisym).
  - apply Sorted_merge_sort, _.
  - apply Sorted_merge_sort, _.
  - by rewrite !merge_sort_Permutation.
Qed.

Lemma rendered_topics_keys topics :
  map fst (rendered_topics topics) = map fst (sorted item_ltb (map_to_list topics)).
Proof. unfold rendered_topics. rewrite List.map_map. by apply map_ext. Qed.

Lemma strictly_sorted_keys_unique (l1 l2 : list (list N * list (list N))) :
  StronglySorted str_lt (map fst l1) ->
  StronglySorted str_lt (map fst l2) ->
  (forall x, x ∈ l1 <-> x ∈ l2) ->
  l1 = l2.
Proof.
  revert l2. induction l1 as [|x1 l1 IH]; intros l2 H1 H2 Hel.
  - destruct l2 as [|x2 l2]; [done|].
    by destruct (not_elem_of_nil x2); apply Hel; left.
  - destruct l2 as [|x2 l2].
    { by destruct (not_elem_of_nil x1); apply Hel; left. }
    cbn [map] in H1, H2.
    apply StronglySorted_inv in H1 as [H1 Hx1].
    apply StronglySorted_inv in H2 as [H2 Hx2].
    rewrite Forall_forall in Hx1. rewrite Forall_forall in Hx2.
    assert (forall (l : list (list N * list (list N))) y, y ∈ l -> y.1 ∈ map fst l) as Hfst.
    { intros l y Hy. apply list_elem_of_In, in_map, list_elem_of_In, Hy. }
    assert (x1 = x2) as ->.
    { assert (x1 ∈ x2 :: l2) as Hin1 by (apply Hel; left).
      assert (x2 ∈ x1 :: l1) as Hin2 by (apply Hel; left).
      apply elem_of_cons in Hin1 as [|Hin1]; [done|].
      apply elem_of_cons in Hin2 as [|Hin2]; [done|].
      pose proof (Hx2 _ (Hfst _ _ Hin1)) as Ha.
      pose proof (Hx1 _ (Hfst _ _ Hin2)) as Hb.
      unfold str_lt in Ha, Hb. by rewrite (str_ltb_asym _ _ Ha) in Hb. }
    f_equal. apply IH; [done..|].
    assert (forall (l : list (list N * list (list N))),
              Forall (str_lt x2.1) (map fst l) -> x2 ∉ l) as Hnot.
    { intros l Hl Hin. rewrite Forall_forall in Hl.
      pose proof (Hl _ (Hfst _ _ Hin)) as Hlt. unfold str_lt in Hlt.
      by rewrite str_ltb_irrefl in Hlt. }
    apply Forall_forall in Hx1, Hx2.
    intros x. specialize (Hel x). rewrite !elem_of_cons in Hel.
    split; intros Hx.
    + destruct Hel as [[->|Hel] _]; [by right | by destruct (Hnot l1 Hx1) | done].
    + destruct Hel as [_ [->|Hel]]; [by right | by destruct (Hnot l2 Hx2) | done].
Qed.

(** What generate_section renders depends on the keys and on the file names
    under each key, not on the order in which the file names were appended:
    two mappings with the same keys and, under each key, the same file names
    in any order are rendered as the same block. *)
Theorem generate_section_order_independent
  (topics1 topics2 : gmap (list N) (list (list N))) :
  (forall k, option_Forall2 Permutation (topics1 !! k) (topics2 !! k)) ->
  generate_section topics1 = generate_section topics2.
Proof.
  intros Hperm. rewrite !generate_section_lines. do 3 f_equal.
  apply strictly_sorted_keys_unique.
  - rewrite rendered_topics_keys. apply sorted_items_strict.
  - rewrite rendered_topics_keys. apply sorted_items_strict.
  - intros [k fs]. rewrite !elem_of_rendered_topics.
    specialize (Hperm k). split; intros (files & Hk & ->); rewrite Hk in Hperm.
    + inversion Hperm as [? files2 Hfiles|]; subst.
      exists files2. split; [done|]. by apply sorted_Permutation.
    + inversion Hperm as [files1 ? Hfiles|]; subst.
      exists files1. split; [done|]. symmetry. by apply sorted_Permutation.
Qed.

Lemma generate_section_order_independent_witness :
  generate_section {[ lit "t" := [lit "B.java"; lit "A.java"] ]}
  = generate_section {[ lit "t" := [lit "A.java"; lit "B.java"] ]}.
Proof.
  apply generate_section_order_independent. intros k.
  destruct (decide (k = lit "t")) as [->|Hne].
  - rewrite !lookup_singleton_eq. constructor. apply perm_swap.
  - rewrite !lookup_singleton_ne by done. constructor.
Defined.

(** ** The errors of main *)

Lemma lookahead_not_file_error {A} (rest : list N) (k : result A) :
  k <> Raise FileNotFoundError -> lookahead rest k <> Raise FileNotFoundError.
Proof.
  intros Hk. unfold lookahead. destruct rest as [|c [|]]; [done| |done].
  by destruct (c =? BACKSLASH)%N.
Qed.

Lemma addliteral_not_file_error (s : list N) (rest : result (list template_item)) :
  rest <> Raise FileNotFoundError -> addliteral s rest <> Raise FileNotFoundError.
Proof. unfold addliteral. by destruct rest. Qed.

Lemma addgroup_not_file_error (groups index : N) (rest : result (list template_item)) :
  rest <> Raise FileNotFoundError -> addgroup groups index rest <> Raise FileNotFoundError.
Proof. unfold addgroup. destruct (groups <? index)%N; [done|]. by destruct rest. Qed.

(** The template parser raises re.error, or the error of a group name that is
    no number; never the error of a missing file. *)
Lemma parse_template_not_file_error (groups : N) (n : nat) :
  forall s, length s <= n ->
    parse_template groups s <> Raise FileNotFoundError
    /\ forall name, group_name groups name s <> Raise FileNotFoundError.
Proof.
  induction n as [n IH] using lt_wf_ind. intros s Hlen.
  assert (forall s', length s' < length s ->
            parse_template groups s' <> Raise FileNotFoundError) as IHp.
  { intros s' Hs'. apply (IH (length s')); [lia | done]. }
  assert (forall s' name, length s' < length s ->
            group_name groups name s' <> Raise FileNotFoundError) as IHg.
  { intros s' name Hs'. apply (IH (length s')); [lia | done]. }
  split.
  - destruct s as [|this s1]; [done|]. cbn [parse_template].
    destruct (negb (this =? BACKSLASH)%N).
    { apply lookahead_not_file_error, addliteral_not_file_error, IHp. simpl. lia. }
    destruct s1 as [|c s2]; [done|].
    apply lookahead_not_file_error.
    destruct (c =? 103)%N.
    { destruct s2 as [|lt s3]; [done|]. destruct (lt =? 60)%N; [|done].
      apply lookahead_not_file_error, IHg. simpl. lia. }
    destruct (c =? 48)%N.
    { destruct s2 as [|d1 s3]; [done|]. destruct (is_octdigit d1).
      - apply lookahead_not_file_error. destruct s3 as [|d2 s4]; [done|].
        destruct (is_octdigit d2).
        + apply lookahead_not_file_error, addliteral_not_file_error, IHp. simpl. lia.
        + apply addliteral_not_file_error, IHp. simpl. lia.
      - apply addliteral_not_file_error, IHp. simpl. lia. }
    destruct (is_digit c).
    { destruct s2 as [|d1 s3]; [by apply addgroup_not_file_error|].
      destruct (is_digit d1).
      - apply lookahead_not_file_error. destruct s3 as [|d2 s4].
        { by apply addgroup_not_file_error. }
        destruct (is_octdigit c && is_octdigit d1 && is_octdigit d2).
        + apply lookahead_not_file_error.
          destruct (255 <? int_of 8 [c; d1; d2])%N; [done|].
          apply addliteral_not_file_error, IHp. simpl. lia.
        + apply addgroup_not_file_error, IHp. simpl. lia.
      - apply addgroup_not_file_error, IHp. simpl. lia. }
    destruct (escape_char c).
    { apply addliteral_not_file_error, IHp. simpl. lia. }
    destruct (is_ascii_letter c); [done|].
    apply addliteral_not_file_error, IHp. simpl. lia.
  - intros name. destruct s as [|c s1].
    { cbn [group_name]. by destruct name. }
    cbn [group_name]. destruct (c =? 62)%N.
    { apply lookahead_not_file_error. destruct name; [done|].
      destruct (forallb is_digit _); [|done].
      apply addgroup_not_file_error, IHp. simpl. lia. }
    destruct (c =? BACKSLASH)%N.
    { destruct s1 as [|c' s2]; [done|].
      apply lookahead_not_file_error, IHg. simpl. lia. }
    apply lookahead_not_file_error, IHg. simpl. lia.
Qed.

(** main raises FileNotFoundError exactly when there is no README.md: a
    missing scan root, a document without the headings or a block that the
    template parser refuses never give this error. *)
Theorem main_file_not_found (w : world) :
  main w = Raise FileNotFoundError <-> readme w = None.
Proof.
  unfold main, read_readme. destruct (readme w) as [content|]; [|done].
  rewrite bind_Ok. unfold replace_section, re_sub. split; [|done].
  destruct (parse_template _ _) as [tpl|e] eqn:E; [done|].
  intros [= ->].
  apply (parse_template_not_file_error _ _ _ (Nat.le_refl _)) in E as [].
Qed.

(** ** The characters of the block *)

Lemma elem_of_str_join (c : N) (sep : list N) (parts : list (list N)) :
  c ∈ str_join sep parts -> c ∈ sep \/ exists part, part ∈ parts /\ c ∈ part.
Proof.
  induction parts as [|x [|y rest] IH].
  - by intros ?%elem_of_nil.
  - intros Hc. right. exists x. split; [by left | done].
  - change (str_join sep (x :: y :: rest)) with (x ++ sep ++ str_join sep (y :: rest)).
    rewrite !elem_of_app. intros [Hc|[Hc|Hc]].
    + right. exists x. split; [by left | done].
    + by left.
    + destruct (IH Hc) as [?|(part & Hpart & ?)]; [by left|].
      right. exists part. split; [by right | done].
Qed.

Lemma elem_of_str_join_part (c : N) (sep : list N) (parts : list (list N)) (part : list N) :
  part ∈ parts -> c ∈ part -> c ∈ str_join sep parts.
Proof.
  intros Hpart Hc. induction parts as [|x [|y rest] IH].
  - by apply elem_of_nil in Hpart.
  - by apply list_elem_of_singleton in Hpart as ->.
  - change (str_join sep (x :: y :: rest)) with (x ++ sep ++ str_join sep (y :: rest)).
    rewrite !elem_of_app. apply elem_of_cons in Hpart as [->|Hpart]; [by left|].
    right; right. by apply IH.
Qed.

Lemma ascii_upper_not_letter (c x : N) :
  is_ascii_letter c = false -> ascii_upper x = c <-> x = c.
Proof.
  unfold is_ascii_letter, ascii_upper. intros Hc.
  apply orb_false_iff in Hc as [H1 H2].
  apply andb_false_iff in H1. apply andb_false_iff in H2.
  rewrite !N.leb_gt in H1, H2.
  destruct ((97 <=? x) && (x <=? 122))%N eqn:E.
  - apply andb_true_iff in E as [E1 E2]. apply N.leb_le in E1, E2. lia.
  - done.
Qed.

Lemma ascii_lower_not_letter (c x : N) :
  is_ascii_letter c = false -> ascii_lower x = c <-> x = c.
Proof.
  unfold is_ascii_letter, ascii_lower. intros Hc.
  apply orb_false_iff in Hc as [H1 H2].
  apply andb_false_iff in H1. apply andb_false_iff in H2.
  rewrite !N.leb_gt in H1, H2.
  destruct ((65 <=? x) && (x <=? 90))%N eqn:E.
  - apply andb_true_iff in E as [E1 E2]. apply N.leb_le in E1, E2. lia.
  - done.
Qed.

(** capitalize moves letters only: any other character stays where it is. *)
Lemma elem_of_capitalize (c : N) (k : list N) :
  is_ascii_letter c = false -> c ∈ capitalize k <-> c ∈ k.
Proof.
  intros Hc. destruct k as [|x rest]; [done|]. cbn [capitalize].
  rewrite !elem_of_cons, !list_elem_of_In, in_map_iff.
  setoid_rewrite (ascii_lower_not_letter c _ Hc). split.
  - intros [Hx|(y & Hy & Hin)]; [|right; by rewrite <- Hy].
    left. symmetry. by apply (ascii_upper_not_letter c x Hc).
  - intros [Hx|Hin]; [|right; by exists c].
    left. symmetry. by apply (ascii_upper_not_letter c x Hc).
Qed.

Lemma elem_of_replace_char (c old new : N) (s : list N) :
  c ∈ replace_char old new s -> c = new \/ (c <> old /\ c ∈ s).
Proof.
  unfold replace_char. rewrite list_elem_of_In, in_map_iff.
  intros (x & <- & Hx%list_elem_of_In).
  destruct (x =? old)%N eqn:E; [by left|].
  apply N.eqb_neq in E. by right.
Qed.


Lemma elem_of_join_step (c : N) (path b : list N) :
  c ∈ join_step path b -> c ∈ path \/ c = SLASH \/ c ∈ b.
Proof.
  unfold join_step. destruct (startswith b [SLASH]); [by auto|].
  destruct (_ || _); rewrite !elem_of_app, ?list_elem_of_singleton; tauto.
Qed.

(** Where a character of an example line comes from. *)
Lemma elem_of_example_line (c : N) (k f : list N) :
  c ∈ example_line k f ->
  c ∈ fixed_text \/ c ∈ drop_last 5 f \/ (c <> BACKSLASH /\ (c ∈ k \/ c ∈ f)).
Proof.
  unfold example_line. cbn zeta. rewrite !elem_of_app.
  assert (forall s, c ∈ s -> s ⊆ fixed_text -> c ∈ fixed_text) as Hfixed by auto.
  assert (forall s, bool_decide (s ⊆ fixed_text) = true -> s ⊆ fixed_text) as Hdec.
  { intros s. apply bool_decide_eq_true_1. }
  intros [Hc|[Hc|[Hc|[Hc|Hc]]]].
  - left. apply (Hfixed _ Hc), Hdec. by vm_compute.
  - by right; left.
  - left. apply (Hfixed _ Hc), Hdec. by vm_compute.
  - apply elem_of_replace_char in Hc as [->|[Hne Hc]].
    { left. apply elem_of_compute. by vm_compute. }
    unfold os_path_join in Hc. cbn [fold_left] in Hc.
    apply elem_of_join_step in Hc as [Hc|[->|Hc]].
    + apply elem_of_join_step in Hc as [Hc|[->|Hc]].
      * left. apply (Hfixed _ Hc), Hdec. by vm_compute.
      * left. apply elem_of_compute. by vm_compute.
      * right; right. by auto.
    + left. apply elem_of_compute. by vm_compute.
    + right; right. by auto.
  - left. apply (Hfixed _ Hc), Hdec. by vm_compute.
Qed.

(** Where a character of the block comes from: the fixed text, a capitalized
    key, a display name, or (the backslash apart) a key or a file name in a
    link target. *)
Lemma elem_of_generate_section (c : N) (topics : gmap (list N) (list (list N))) :
  c ∈ generate_section topics ->
  c ∈ fixed_text
  \/ exists k files,
       topics !! k = Some files
       /\ (c ∈ capitalize k
           \/ exists f, f ∈ files
                        /\ (c ∈ drop_last 5 f \/ (c <> BACKSLASH /\ (c ∈ k \/ c ∈ f)))).
Proof.
  unfold generate_section. intros [Hc|(line & Hline & Hc)]%elem_of_str_join.
  { left. apply list_elem_of_singleton in Hc as ->. apply elem_of_compute. by vm_compute. }
  assert (forall s, bool_decide (s ⊆ fixed_text) = true -> c ∈ s -> c ∈ fixed_text) as Hfixed.
  { intros s Hs%bool_decide_eq_true_1 Hin. by apply Hs. }
  rewrite section_lines_blocks, elem_of_app, list_elem_of_singleton in Hline.
  destruct Hline as [->|Hline].
  { left. revert Hc. apply Hfixed. by vm_compute. }
  apply list_elem_of_In, in_flat_map in Hline as ([k fs] & Hblock & Hline).
  apply list_elem_of_In, elem_of_rendered_topics in Hblock as (files & Hk & ->).
  apply list_elem_of_In in Hline. unfold block_lines in Hline. cbn [fst snd] in Hline.
  rewrite !elem_of_app, !list_elem_of_singleton in Hline.
  destruct Hline as [->|[Hline| ->]].
  - rewrite !elem_of_app in Hc. destruct Hc as [Hc|[Hc|Hc]].
    + left. revert Hc. apply Hfixed. by vm_compute.
    + right. exists k, files. by auto.
    + left. revert Hc. apply Hfixed. by vm_compute.
  - apply list_elem_of_In, in_map_iff in Hline as (f & <- & Hf).
    apply list_elem_of_In, elem_of_sorted in Hf.
    apply elem_of_example_line in Hc as [Hc|Hc]; [by left|].
    right. exists k, files. split; [done|]. right. by exists f.
  - by apply elem_of_nil in Hc.
Qed.

(** For keys of ASCII characters, the block holds a backslash exactly when a
    key holds one or the display name of a listed file does: in the link
    targets every backslash has been replaced by a slash. *)
Theorem generate_section_backslash (topics : gmap (list N) (list (list N))) :
  ascii_keys topics ->
  BACKSLASH ∈ generate_section topics <->
  exists k files,
    topics !! k = Some files
    /\ (BACKSLASH ∈ k \/ exists f, f ∈ files /\ BACKSLASH ∈ drop_last 5 f).
Proof.
  intros _. split.
  - intros [Hc|(k & files & Hk & Hc)]%elem_of_generate_section.
    { exfalso. revert Hc. apply not_elem_of_compute. by vm_compute. }
    exists k, files. split; [done|].
    destruct Hc as [Hc|(f & Hf & [Hc|[Hne _]])]; [| |done].
    + left. by apply (elem_of_capitalize BACKSLASH k eq_refl) in Hc.
    + right. by exists f.
  - intros (k & files & Hk & Hc). unfold generate_section.
    destruct Hc as [Hc|(f & Hf & Hc)].
    + apply elem_of_str_join_part with (part := lit "- **" ++ capitalize k ++ lit "**").
      * apply (elem_of_section_lines _ _ k files Hk). unfold block_lines. cbn [fst snd].
        apply elem_of_app. left. by left.
      * rewrite !elem_of_app. right; left.
        by apply (elem_of_capitalize BACKSLASH k eq_refl).
    + apply elem_of_str_join_part with (part := example_line k f).
      * apply (elem_of_section_lines _ _ k files Hk). unfold block_lines. cbn [fst snd].
        apply elem_of_app. right. apply elem_of_app. left.
        apply list_elem_of_In, in_map, list_elem_of_In, elem_of_sorted, Hf.
      * unfold example_line. cbn zeta. rewrite !elem_of_app. by right; left.
Qed.

Lemma generate_section_backslash_witness :
  BACKSLASH ∈ generate_section (one_file (lit "t") ([BACKSLASH] ++ lit "1.java")) <->
  exists k files,
    one_file (lit "t") ([BACKSLASH] ++ lit "1.java") !! k = Some files
    /\ (BACKSLASH ∈ k \/ exists f, f ∈ files /\ BACKSLASH ∈ drop_last 5 f).
Proof.
  apply generate_section_backslash.
  apply (bool_decide_unpack _). by vm_compute.
Defined.

(** ** Splicing a rendered block *)

(** Splicing a block that starts with the start heading keeps the marker
    pair of a document, and adds none to a document without it. *)
Lemma splice_keeps_markers (y s : list N) :
  has_markers (splice_block y s) <-> has_markers s.
Proof.
  destruct (re_search true pattern s) as [[[b m] r]|] eqn:E.
  - apply search_Some in E as (mid & -> & Hreg).
    rewrite (splice_first_region _ _ _ _ _ Hreg). split; intros _.
    + by apply first_region_has_markers in Hreg.
    + exists b, (y ++ [NL]), (splice_block y r). unfold spliced_region.
      by rewrite <- !app_assoc.
  - apply search_None in E. unfold splice_block. by rewrite (sub_all_no_markers _ s E).
Qed.

Lemma replace_section_splice (topics : gmap (list N) (list (list N))) (content : list N) :
  BACKSLASH ∉ generate_section topics ->
  exists y, generate_section topics = TOPICS_HEADING ++ y
            /\ replace_section content (generate_section topics)
               = Ok (splice_block y content).
Proof.
  intros Hbs. destruct (generate_section_heading topics) as [y Hy].
  exists y. split; [done|]. rewrite (replace_section_literal _ _ Hbs).
  unfold splice_block, spliced_region. by rewrite Hy.
Qed.

(** A run of replace_section on a block of generate_section without a
    backslash keeps the marker pair: the result holds the two headings, in
    that order, exactly when the document did, so that a later run finds a
    region to replace. *)
Theorem replace_section_keeps_markers
  (topics : gmap (list N) (list (list N))) (content : list N) :
  BACKSLASH ∉ generate_section topics ->
  exists out,
    replace_section content (generate_section topics) = Ok out
    /\ (has_markers out <-> has_markers content).
Proof.
  intros Hbs. destruct (replace_section_splice topics content Hbs) as (y & _ & ->).
  eexists. split; [done|]. apply splice_keeps_markers.
Qed.

Lemma replace_section_keeps_markers_witness :
  exists out,
    replace_section two_regions (generate_section (one_file (lit "t") (lit "A.java")))
    = Ok out
    /\ (has_markers out <-> has_markers two_regions).
Proof.
  apply replace_section_keeps_markers.
  apply not_elem_of_compute. by vm_compute.
Defined.




(** ** From the tree to the block *)

Lemma collect_examples_dir (cwd : list N) (d : dir) (p : list (list N)) (fs : list (list N)) :
  isabs cwd = true -> wf_dir d -> (p, fs) ∈ dirs_of [] d -> java_files fs <> [] ->
  collect_examples cwd (Some d) !! rel_path p = Some (java_files fs).
Proof.
  intros Habs Hwf Hdir Hne. rewrite collect_examples_lookup by done.
  rewrite (flat_map_select _ java_files (rel_path p) fs).
  - by destruct (java_files fs).
  - by apply keyed_dirs_NoDup.
  - apply elem_of_keyed_dirs. by exists p.
Qed.

Lemma endswith_split (f suffix : list N) :
  endswith f suffix = true -> f = drop_last (length suffix) f ++ suffix.
Proof.
  unfold endswith, drop_last. intros H%bool_decide_eq_true_1.
  rewrite <- H at 2. by rewrite take_drop.
Qed.

(** The key of a directory is a relative path: not empty, and with no slash
    at either end. *)
Lemma rel_path_relative (p : list (list N)) :
  Forall valid_name p ->
  rel_path p <> []
  /\ startswith (rel_path p) [SLASH] = false
  /\ endswith (rel_path p) [SLASH] = false.
Proof.
  intros Hp. destruct p as [|n q]; [done|].
  unfold rel_path. rewrite str_join_below.
  apply Forall_cons in Hp as [(Hn & Hslash & _) Hq].
  split; [by destruct n|]. split.
  - destruct n as [|c n]; [done|]. apply not_elem_of_cons in Hslash as [Hc _].
    unfold startswith. cbn. apply bool_decide_eq_false_2. by intros [= ->].
  - destruct q as [|m q] using rev_ind.
    + cbn [below flat_map]. rewrite app_nil_r. by apply endswith_not_in.
    + apply Forall_app in Hq as [_ (Hm & Hmslash & _)%Forall_singleton].
      rewrite below_snoc. rewrite app_assoc.
      change (SLASH :: m) with ([SLASH] ++ m). rewrite app_assoc.
      rewrite endswith_app by done. by apply endswith_not_in.
Qed.

(** The lines of the block that main renders for a tree whose keys are of
    ASCII characters: the heading line and, for each directory of the tree
    that holds a .java file, the bullet of its key, one bullet for each of
    its .java files and an empty line.  Nothing else is rendered, and no
    .java file of the tree is left out. *)
Theorem tree_block_lines (cwd : list N) (d : dir) (line : list N) :
  isabs cwd = true ->
  wf_dir d ->
  ascii_keys (collect_examples cwd (Some d)) ->
  line ∈ section_lines (collect_examples cwd (Some d)) <->
  line = TOPICS_HEADING ++ [NL]
  \/ exists p fs,
       (p, fs) ∈ dirs_of [] d
       /\ java_files fs <> []
       /\ (line = lit "- **" ++ capitalize (rel_path p) ++ lit "**"
           \/ line = []
           \/ exists f, f ∈ fs /\ endswith f (lit ".java") = true
                        /\ line = example_line (rel_path p) f).
Proof.
  intros Habs Hwf _.
  assert (forall fs f, f ∈ java_files fs <-> f ∈ fs /\ endswith f (lit ".java") = true)
    as Hjava.
  { intros fs f. unfold java_files. by rewrite list_elem_of_In, filter_In, <- list_elem_of_In. }
  rewrite section_lines_blocks, elem_of_app, list_elem_of_singleton.
  rewrite (list_elem_of_In (flat_map _ _) line), in_flat_map. split.
  - intros [-> | ([k l] & Hblock & Hline)]; [by left|]. right.
    apply list_elem_of_In, elem_of_rendered_topics in Hblock as (files & Hk & ->).
    apply (collect_examples_Some _ _ _ _ Habs Hwf) in Hk as (p & fs & Hp & -> & -> & Hne).
    exists p, fs. split; [done|]. split; [done|].
    apply list_elem_of_In in Hline. unfold block_lines in Hline. cbn [fst snd] in Hline.
    rewrite !elem_of_app, !list_elem_of_singleton in Hline.
    destruct Hline as [-> | [Hline | ->]]; [by left | | by right; left].
    right; right. apply list_elem_of_In, in_map_iff in Hline as (f & <- & Hf).
    apply list_elem_of_In, elem_of_sorted, Hjava in Hf as [Hf Hend]. by exists f.
  - intros [-> | (p & fs & Hp & Hne & Hline)]; [by left|]. right.
    exists (rel_path p, sorted str_ltb (java_files fs)). split.
    + apply list_elem_of_In, elem_of_rendered_topics. exists (java_files fs).
      split; [by apply collect_examples_dir | done].
    + apply list_elem_of_In. unfold block_lines. cbn [fst snd].
      rewrite !elem_of_app, !list_elem_of_singleton.
      destruct Hline as [-> | [-> | (f & Hf & Hend & ->)]]; [by left | by right; right |].
      right; left. apply list_elem_of_In, in_map, list_elem_of_In, elem_of_sorted, Hjava.
      by split.
Qed.

Lemma tree_block_lines_witness :
  (lit "  - [Main](src/main/java/./Main.java)")
    ∈ section_lines (collect_examples (lit "/repo") (Some example_tree)) <->
  lit "  - [Main](src/main/java/./Main.java)" = TOPICS_HEADING ++ [NL]
  \/ exists p fs,
       (p, fs) ∈ dirs_of [] example_tree
       /\ java_files fs <> []
       /\ (lit "  - [Main](src/main/java/./Main.java)"
           = lit "- **" ++ capitalize (rel_path p) ++ lit "**"
           \/ lit "  - [Main](src/main/java/./Main.java)" = []
           \/ exists f, f ∈ fs /\ endswith f (lit ".java") = true
                        /\ lit "  - [Main](src/main/java/./Main.java)"
                           = example_line (rel_path p) f).
Proof.
  apply tree_block_lines.
  - by vm_compute.
  - exact example_tree_wf.
  - apply (bool_decide_unpack _). by vm_compute.
Defined.

(** The bullet of a .java file of the tree, spelled out: the display name is
    the file name without its last five characters, which are .java, and the
    link target is BASE_DIR, the key of the directory and the file name,
    joined by slashes, with every backslash replaced by a slash.  The key of
    the scan root is a dot, so that a file at the scan root is linked
    through /./. *)
Theorem tree_file_bullet (cwd : list N) (d : dir)
  (p : list (list N)) (fs : list (list N)) (f : list N) :
  isabs cwd = true ->
  wf_dir d ->
  (p, fs) ∈ dirs_of [] d ->
  f ∈ fs ->
  endswith f (lit ".java") = true ->
  SLASH ∉ f ->
  exists name,
    f = name ++ lit ".java"
    /\ (lit "  - [" ++ name ++ lit "]("
        ++ replace_char BACKSLASH SLASH
             (BASE_DIR ++ [SLASH] ++ rel_path p ++ [SLASH] ++ name ++ lit ".java")
        ++ lit ")")
         ∈ section_lines (collect_examples cwd (Some d)).
Proof.
  intros Habs Hwf Hp Hf Hend Hslash.
  assert (f ∈ java_files fs) as Hfj.
  { apply list_elem_of_In, filter_In. split; [by apply list_elem_of_In | done]. }
  assert (java_files fs <> []) as Hne.
  { intros E. rewrite E in Hfj. by apply not_elem_of_nil in Hfj. }
  exists (drop_last 5 f). pose proof (endswith_split _ _ Hend) as Hsplit.
  change (length (lit ".java")) with 5%nat in Hsplit. split; [done|].
  rewrite <- Hsplit.
  apply (elem_of_section_lines _ _ (rel_path p) (java_files fs)).
  { by apply collect_examples_dir. }
  unfold block_lines. cbn [fst snd]. apply elem_of_app. right. apply elem_of_app. left.
  apply list_elem_of_In, in_map_iff. exists f. split.
  - unfold example_line. cbn zeta.
    assert (Forall valid_name p) as Hvalid
      by (eapply dirs_of_valid; [exact Hwf | constructor | exact Hp]).
    destruct (rel_path_relative p Hvalid) as (Hk & Hks & Hke).
    rewrite (os_path_join_relative _ _ Hk Hks Hke (startswith_not_in _ _ Hslash)).
    done.
  - by apply list_elem_of_In, elem_of_sorted.
Qed.

Lemma tree_file_bullet_witness :
  exists name,
    lit "Main.java" = name ++ lit ".java"
    /\ (lit "  - [" ++ name ++ lit "]("
        ++ replace_char BACKSLASH SLASH
             (BASE_DIR ++ [SLASH] ++ rel_path [] ++ [SLASH] ++ name ++ lit ".java")
        ++ lit ")")
         ∈ section_lines (collect_examples (lit "/repo") (Some example_tree)).
Proof.
  apply (tree_file_bullet (lit "/repo") example_tree []
           [lit "Main.java"; lit "notes.txt"] (lit "Main.java")).
  - by vm_compute.
  - exact example_tree_wf.
  - apply elem_of_compute. by vm_compute.
  - apply elem_of_compute. by vm_compute.
  - by vm_compute.
  - apply not_elem_of_compute. by vm_compute.
Defined.

(** ** The ends of the block *)

Lemma str_join_snoc_empty (sep : list N) (parts : list (list N)) :
  parts <> [] -> str_join sep (parts ++ [[]]) = str_join sep parts ++ sep.
Proof.
  induction parts as [|x [|y rest] IH]; [done | by intros _; cbn; rewrite app_nil_r |].
  intros _.
  change (str_join sep ((x :: y :: rest) ++ [[]]))
    with (x ++ sep ++ str_join sep ((y :: rest) ++ [[]])).
  rewrite IH by done.
  change (str_join sep (x :: y :: rest)) with (x ++ sep ++ str_join sep (y :: rest)).
  by rewrite <- !app_assoc.
Qed.

Lemma block_lines_snoc (block : list N * list (list N)) :
  exists lines, block_lines block = lines ++ [[]] /\ lines <> [].
Proof.
  unfold block_lines. eexists. rewrite app_assoc. split; [reflexivity|].
  by intros [[=] _]%app_eq_nil.
Qed.

(** Whatever the mapping, the block starts with the start heading and ends
    with a newline: spliced in, it is followed by an empty line's newline
    and the end heading. *)
Theorem generate_section_ends (topics : gmap (list N) (list (list N))) :
  exists body, generate_section topics = TOPICS_HEADING ++ body ++ [NL].
Proof.
  rewrite generate_section_lines.
  destruct (rendered_topics topics) as [|block blocks] using rev_ind.
  { by exists []. }
  clear IHblocks. rewrite flat_map_app. cbn [flat_map]. rewrite app_nil_r.
  destruct (block_lines_snoc block) as (lines & -> & Hne).
  rewrite !app_assoc. rewrite str_join_snoc_empty by (by intros [? _]%app_eq_nil).
  rewrite <- !app_assoc.
  change ([TOPICS_HEADING ++ [NL]] ++ flat_map block_lines blocks ++ lines)
    with ((TOPICS_HEADING ++ [NL]) :: (flat_map block_lines blocks ++ lines)).
  destruct (flat_map block_lines blocks ++ lines) as [|y rest] eqn:E.
  { by apply app_eq_nil in E as [_ ?]. }
  change (str_join [NL] ((TOPICS_HEADING ++ [NL]) :: y :: rest))
    with ((TOPICS_HEADING ++ [NL]) ++ [NL] ++ str_join [NL] (y :: rest)).
  exists ([NL] ++ [NL] ++ str_join [NL] (y :: rest)). by rewrite <- !app_assoc.
Qed.

(** ** The tokens of an accepted template *)


















(** ** A replacement that is the same text for every match *)

Lemma all_regions_replaced_sub_all (repl : list N -> list N) (s out : list N) :
  all_regions_replaced repl s out -> out = sub_all true pattern repl s.
Proof.
  induction 1 as [s Hno|s b mid r out Hreg Hall IH].
  - by rewrite sub_all_no_markers.
  - by rewrite (sub_all_first_region _ _ _ _ _ Hreg), IH.
Qed.


Section constant_replacement.
Variable x : list N.







End constant_replacement.

(** ** Running main twice on a template without a group reference *)






(** ** The block is a replacement template *)

(** A block that re refuses as a replacement template makes replace_section
    raise, whatever the document. *)
Lemma replace_section_refused (content block : list N) (e : exn) :
  parse_template 0 (block ++ [NL] ++ REQUIREMENTS_HEADING) = Raise e ->
  replace_section content block = Raise e.
Proof.
  intros Htpl. unfold replace_section, re_sub.
  change (groups_of pattern) with 0%N. by rewrite Htpl.
Qed.

(** C10: the block is a replacement template.  Without a backslash the
    block is inserted as it is: every region of the document is replaced by
    the block, a newline and the end heading.  A file named \1.java makes
    re.sub raise, and a directory named a\nb gives a document that is not
    the one with the block inserted as it is. *)
Theorem replace_section_block_is_template :
  (forall content block : list N,
     BACKSLASH ∉ block ->
     exists out,
       replace_section content block = Ok out
       /\ all_regions_replaced (fun _ => block ++ [NL] ++ REQUIREMENTS_HEADING)
            content out)
  /\ (exists f, (BACKSLASH ∈ f)
        /\ replace_section (TOPICS_HEADING ++ REQUIREMENTS_HEADING)
             (generate_section (one_file (lit "t") f))
           = Raise (re_error (invalid_group_reference 1)))
  /\ (exists topic out, (BACKSLASH ∈ topic)
        /\ replace_section (TOPICS_HEADING ++ REQUIREMENTS_HEADING)
             (generate_section (one_file topic (lit "F.java")))
           = Ok out
        /\ ~ all_regions_replaced
               (fun _ => generate_section (one_file topic (lit "F.java"))
                         ++ [NL] ++ REQUIREMENTS_HEADING)
               (TOPICS_HEADING ++ REQUIREMENTS_HEADING) out).
Proof.
  split; [|split].
  - intros content block Hbs. by apply replace_section_all.
  - exists (lit "\1.java"). split; [|by vm_compute].
    apply (bool_decide_unpack _). by vm_compute.
  - exists (lit "a\nb"). eexists. split; [|split].
    + apply (bool_decide_unpack _). by vm_compute.
    + by vm_compute.
    + intros H%all_regions_replaced_sub_all. by vm_compute in H.
Qed.

Lemma replace_section_block_is_template_witness :
  exists out,
    replace_section two_regions (generate_section ∅) = Ok out
    /\ all_regions_replaced
         (fun _ => generate_section ∅ ++ [NL] ++ REQUIREMENTS_HEADING) two_regions out.
Proof.
  apply (proj1 replace_section_block_is_template).
  apply not_elem_of_compute. by vm_compute.
Defined.

(** ** Trees of plain names *)






(** ** The order of the block *)


